(** * Block-structured extents (SolverUtils/include/BSMesh.H)

    A shallow embedding of the class template [BSExtent<T>] and proofs about
    its overlap test, neighbour search, flat-index enumeration, node
    numbering loop and structured-to-unstructured conversion.

    Conventions of the embedding.
    - A [std::vector<T>] is a [list Z]; [v[i]] on an index past the end is
      undefined in C++ and is recorded here as the fault [OutOfRange].
    - [size_t] is a 64-bit unsigned integer; its wrap-around is [wrap_size].
    - The element type [T] is instantiated by the header itself with
      [Mesh::IndexType], whose declaration lives in Mesh.H.  It is taken as
      an unsigned integer type with [Tmod] values (a section variable); its
      wrap-around is [wrapT].
    - [ND()] narrows the dimension count to [int]; the embedding keeps the
      count as a [nat], which is exact below 2^31 dimensions.
    - [assert] is compiled in: a false condition stops the call with
      [AssertFailed]. *)

From stdpp Require Import base list option numbers.
From Stdlib Require Import ZArith Lia.

Local Open Scope Z_scope.

(** ** Outcomes of a call *)

Inductive fault : Set :=
| OutOfRange    (* operator[] or pointer read past the end: undefined *)
| AssertFailed  (* assert(...) with a false condition *)
| LengthError   (* resize to more elements than a vector can hold *)
| NoExit.       (* a loop whose condition can no longer become false *)

Inductive outcome (A : Type) : Type :=
| Ret (a : A)
| Stop (f : fault).
Arguments Ret {A} a.
Arguments Stop {A} f.

Global Instance outcome_ret : MRet outcome := fun A a => Ret a.
Global Instance outcome_bind : MBind outcome := fun A B k m =>
  match m with
  | Ret a => k a
  | Stop f => Stop f
  end.

Global Instance outcome_fmap : FMap outcome := fun A B g m =>
  match m with
  | Ret a => Ret (g a)
  | Stop f => Stop f
  end.

Definition returns {A : Type} (m : outcome A) : Prop := exists a, m = Ret a.

(** ** Vectors *)

Definition vget {A : Type} (v : list A) (i : nat) : outcome A :=
  match v !! i with
  | Some x => Ret x
  | None => Stop OutOfRange
  end.

Definition vset {A : Type} (v : list A) (i : nat) (x : A) : outcome (list A) :=
  if decide (i < length v)%nat then Ret (<[i := x]> v) else Stop OutOfRange.

(** [v[i]] for an index held in an unsigned machine integer. *)
Definition vgetZ {A : Type} (v : list A) (i : Z) : outcome A :=
  if bool_decide (i < Z.of_nat (length v)) then vget v (Z.to_nat i)
  else Stop OutOfRange.

(** [for (i = first; i < first + count; i++) body], threading the state. *)
Definition for_range {St : Type} (body : nat -> St -> outcome St) :=
  fix go (count first : nat) (s : St) {struct count} : outcome St :=
    match count with
    | O => Ret s
    | S count' => s' ← body first s; go count' (S first) s'
    end.

(** ** Machine integers *)

Definition size_mod : Z := 2 ^ 64.
Definition wrap_size (z : Z) : Z := z mod size_mod.

(** ** The class *)

(** [BSExtent<T>] derives publicly from [std::vector<std::vector<T>>]; the
    base sub-object is the field [bounds]. *)
Record BSExtent : Type := mkBSExtent {
  bounds : list (list Z);
  _nd : Z;
  _Np : list Z;
  _N : list Z
}.

Definition with_bounds (e : BSExtent) (b : list (list Z)) : BSExtent :=
  mkBSExtent b (_nd e) (_Np e) (_N e).

(** [this->at(i)[j]] without the range check: the element [j] of row [i] *)
Definition at2 (b : list (list Z)) (i j : nat) : outcome Z :=
  row ← vget b i; vget row j.

(** [BSExtent()] *)
Definition BSExtent_default : BSExtent := mkBSExtent [] 0 [] [].

(** [destroy()] *)
Definition destroy (e : BSExtent) : BSExtent := mkBSExtent [] 0 [] [].

(** [ND()] *)
Definition ND (e : BSExtent) : nat := length (bounds e).

(** [Flatten(output)] *)
Definition Flatten (e : BSExtent) (output : list Z) : outcome (list Z) :=
  foldl (fun acc row =>
           out ← acc;
           lo ← vget row 0;
           hi ← vget row 1;
           Ret (out ++ [lo] ++ [hi]))
        (Ret []) (bounds e).

(** ** The collaborator of the conversion *)

(** Modelled from the spec: the class [Connectivity] is declared in Mesh.H,
    which is not among the sources.  The spec gives its contract as a sink
    with an append operation [AddElement(orderedNodeIndices)] and a
    finalising [Sync()]; the sink is the sequence of calls it received. *)
Inductive conn_call : Type :=
| AddElement (element : list Z)
| ConnSync.

Definition Connectivity : Type := list conn_call.

Section ElementType.

(** Number of values of the unsigned element type [T]. *)
Variable Tmod : Z.

Definition wrapT (z : Z) : Z := z mod Tmod.

(** [Sync()] *)
Definition Sync (e : BSExtent) : outcome BSExtent :=
  let nd := length (bounds e) in
  let N0 := resize nd 0 (_N e) in
  let Np0 := resize nd 0 (_Np e) in
  N1 ← for_range (fun i N =>
          hi ← at2 (bounds e) i 1;
          lo ← at2 (bounds e) i 0;
          vset N i (wrap_size (wrapT (wrapT (hi - lo) + 1))))
        nd 0%nat N0;
  Np1 ← vset Np0 0 1;
  Np2 ← for_range (fun i Np =>
          n ← vget N1 (i - 1);
          p ← vget Np (i - 1);
          vset Np i (wrap_size (n * p)))
        (nd - 1) 1%nat Np1;
  Ret (mkBSExtent (bounds e) (Z.of_nat nd) Np2 N1).

(** [BSExtent(const std::vector<std::vector<T>> &inextent)]: every row is
    copied element by element with [push_back], then [Sync()]. *)
Definition copy_row (row : list Z) : list Z :=
  foldl (fun acc x => acc ++ [x]) [] row.

Definition BSExtent_nested (inextent : list (list Z)) : outcome BSExtent :=
  Sync (mkBSExtent (copy_row <$> inextent) (Z.of_nat (length inextent)) [] []).

(** The filling loop shared by the flat constructor, the raw-buffer
    constructor and [Init]: each of the [nd] rows receives the next two
    elements of the source. *)
Definition fill_pairs (src : list Z) (nd : nat) : outcome (list (list Z)) :=
  for_range (fun i rows =>
      a ← vget src (2 * i);
      b ← vget src (2 * i + 1);
      vset rows i ([] ++ [a] ++ [b]))
    nd 0%nat (replicate nd []).

(** [BSExtent(const std::vector<T> &inflatextent)] *)
Definition BSExtent_flat (inflatextent : list Z) : outcome BSExtent :=
  let nd := (length inflatextent / 2)%nat in
  rows ← fill_pairs inflatextent nd;
  Sync (mkBSExtent rows (Z.of_nat nd) [] []).

(** [BSExtent(const T *src, int nd = 3)]: the buffer is the list [src]; a
    negative [nd] converts to a [size_t] no vector can be resized to. *)
Definition BSExtent_raw (src : list Z) (nd : Z) : outcome BSExtent :=
  if nd <? 0 then Stop LengthError
  else
    rows ← fill_pairs src (Z.to_nat nd);
    Sync (mkBSExtent rows nd [] []).

(** [Init(inflatextent)] *)
Definition Init (e : BSExtent) (inflatextent : list Z) : outcome BSExtent :=
  let e0 := destroy e in
  let nd := (length inflatextent / 2)%nat in
  rows ← fill_pairs inflatextent nd;
  Sync (mkBSExtent rows (Z.of_nat nd) (_Np e0) (_N e0)).

(** [NNodes()] *)
Definition NNodes (e : BSExtent) : outcome Z :=
  foldl (fun acc row =>
           nnodes ← acc;
           hi ← vget row 1;
           lo ← vget row 0;
           Ret (wrapT (nnodes * wrapT (wrapT (hi - lo) + 1))))
        (Ret 1) (bounds e).

(** [Overlap(inextent, outextent)]: the value of [outextent] after the
    call.  The comparisons are read in source order with the short-circuit
    evaluation of [&&] and [||]. *)
Definition inside (a b : list (list Z)) (j k : nat) : outcome bool :=
  x ← at2 a j k;
  lo ← at2 b j 0;
  if bool_decide (lo <= x) then
    x' ← at2 a j k;
    hi ← at2 b j 1;
    Ret (bool_decide (x' <= hi))
  else Ret false.

Definition Overlap_test (a b : list (list Z)) (j : nat) : outcome bool :=
  c0 ← inside a b j 0;
  if (c0 : bool) then Ret true else inside a b j 1.

Definition Overlap_match (a b : list (list Z)) :=
  fix go (count j : nat) (matched : bool) {struct count} : outcome bool :=
    match count with
    | O => Ret matched
    | S count' =>
        if matched then
          c ← Overlap_test a b j;
          go count' (S j) (if negb (c : bool) then false else matched)
        else Ret matched
    end.

(** [outextent[i].resize(2)] *)
Definition Overlap_resize_row (i : nat) (out : list (list Z))
    : outcome (list (list Z)) :=
  row ← vget out i; vset out i (resize 2 0 row).

(** [outextent[i][0] = std::max(...); outextent[i][1] = std::min(...)] *)
Definition Overlap_clip_row (a b : list (list Z)) (i : nat)
    (out : list (list Z)) : outcome (list (list Z)) :=
  a0 ← at2 a i 0;
  b0 ← at2 b i 0;
  row ← vget out i;
  row' ← vset row 0 (Z.max a0 b0);
  out' ← vset out i row';
  a1 ← at2 a i 1;
  b1 ← at2 b i 1;
  row2 ← vget out' i;
  row2' ← vset row2 1 (Z.min a1 b1);
  vset out' i row2'.

Definition Overlap (this inextent outextent : BSExtent) : outcome BSExtent :=
  let nd := ND this in
  let out0 := @nil (list Z) in
  matched ← Overlap_match (bounds this) (bounds inextent) nd 0%nat true;
  if (matched : bool) then
    let out1 := resize nd [] out0 in
    out2 ← for_range Overlap_resize_row nd 0%nat out1;
    out3 ← for_range (Overlap_clip_row (bounds this) (bounds inextent))
             nd 0%nat out2;
    Ret (with_bounds outextent out3)
  else Ret (with_bounds outextent out0).

(** [for (T dd = start; dd <= end; dd++) body].  The loop runs
    [end - start + 1] times; when the increment of [dd = end] wraps around
    to 0 the condition holds again and the loop has no exit. *)
Definition for_T {St : Type} (body : Z -> St -> outcome St) (last : Z) :=
  fix go (count : nat) (dd : Z) (s : St) {struct count} : outcome St :=
    if bool_decide (dd <= last) then
      match count with
      | O => Stop NoExit
      | S count' => s' ← body dd s; go count' (wrapT (dd + 1)) s'
      end
    else Ret s.

(** [dir_loop(nd, indoff, plane, N, NP, inextent, indices)]: the value of
    [indices] after the call.  With [nd = 0] the index [dindex] is -1. *)
Fixpoint dir_loop (this : BSExtent) (nd : nat) (indoff plane : Z)
    (N NP : list Z) (inextent : BSExtent) (indices : list Z)
    {struct nd} : outcome (list Z) :=
  match nd with
  | O => Stop OutOfRange
  | S dindex =>
      np ← vget NP dindex;
      let plane' := wrapT (plane + np) in
      first ← at2 (bounds inextent) dindex 0;
      last ← at2 (bounds inextent) dindex 1;
      for_T (fun dd ind =>
               match dindex with
               | O =>
                   lo ← at2 (bounds this) dindex 0;
                   Ret (ind ++ [wrapT (wrapT (wrapT (dd - lo) + 1) + indoff)])
               | S _ =>
                   lo ← at2 (bounds this) dindex 0;
                   p ← vget NP dindex;
                   let ndoff := wrapT (indoff + wrapT (wrapT (dd - lo) * p)) in
                   dir_loop this dindex ndoff plane' N NP inextent ind
               end)
            last (Z.to_nat (last - first + 1)) first indices
  end.

(** [GetFlatIndices(extent, indices)] *)
Definition GetFlatIndices (this extent : BSExtent) (indices : list Z)
    : outcome (list Z) :=
  let nd := ND this in
  let ind0 := @nil Z in
  '(N, NP) ← for_range (fun nc '(N, NP) =>
        hi ← at2 (bounds this) nc 1;
        lo ← at2 (bounds this) nc 0;
        N' ← vset N nc (wrapT (wrapT (hi - lo) + 1));
        p ← match nc with
            | O => Ret 1
            | S _ => n ← vget N' (nc - 1); q ← vget NP (nc - 1); Ret (wrapT (n * q))
            end;
        NP' ← vset NP nc p;
        Ret (N', NP'))
      nd 0%nat (replicate nd 0, replicate nd 0);
  NP0 ← vset NP 0 0;
  dir_loop this nd 0 0 N NP0 extent ind0.

(** [FindSharedNodes(extent_pool, shared_extents, neighbors)]: the values
    of [shared_extents] and [neighbors] after the call.  The test
    [*epi != *this] is the comparison of the base vectors. *)
Definition FindSharedNodes_loop (this : BSExtent) :=
  fix go (pool : list BSExtent) (nindex : Z)
         (shared_extents : list BSExtent) (neighbors : list Z)
         {struct pool} : outcome (list BSExtent * list Z) :=
    match pool with
    | [] => Ret (shared_extents, neighbors)
    | epi :: pool' =>
        '(sh, nb) ←
          (if bool_decide (bounds epi <> bounds this) then
             overlap ← Overlap this epi BSExtent_default;
             if bool_decide (bounds overlap <> []) then
               Ret (shared_extents ++ [overlap], neighbors ++ [nindex])
             else Ret (shared_extents, neighbors)
           else Ret (shared_extents, neighbors));
        go pool' (wrapT (nindex + 1)) sh nb
    end.

Definition FindSharedNodes (this : BSExtent) (extent_pool : list BSExtent)
    (shared_extents : list BSExtent) (neighbors : list Z)
    : outcome (list BSExtent * list Z) :=
  FindSharedNodes_loop this extent_pool 0 [] neighbors.


(** [NodeNum(index)].  The routine is a single loop
    [for (size_t i = _nd - 1; i >= 0; i--) l0 += ...] and has no [return]
    statement.  A state of the loop is the counter [i] and the accumulator
    [l0]; [NodeNum_step] evaluates the condition and, when it holds, the
    body and the decrement. *)
Inductive loop_state : Type :=
| Running (i l0 : Z)
| Exited (l0 : Z)
| Faulted (f : fault).

Definition NodeNum_cond (i : Z) : bool := bool_decide (0 <= i).

Definition NodeNum_body (this : BSExtent) (index : list Z) (i l0 : Z)
    : outcome Z :=
  x ← vgetZ index i;
  row ← vgetZ (bounds this) i;
  lo ← vget row 0;
  p ← vgetZ (_Np this) i;
  Ret (wrapT (wrap_size (l0 + wrap_size (wrapT (x - lo) * p)))).

Definition NodeNum_step (this : BSExtent) (index : list Z)
    (st : loop_state) : loop_state :=
  match st with
  | Running i l0 =>
      if NodeNum_cond i then
        match NodeNum_body this index i l0 with
        | Ret l0' => Running (wrap_size (i - 1)) l0'
        | Stop f => Faulted f
        end
      else Exited l0
  | _ => st
  end.

Definition NodeNum_init (this : BSExtent) : loop_state :=
  Running (wrap_size (_nd this - 1)) 1.

(** The state after [n] evaluations of the loop condition. *)
Definition NodeNum_run (this : BSExtent) (index : list Z) (n : nat)
    : loop_state :=
  Nat.iter n (NodeNum_step this index) (NodeNum_init this).

(** [CreateUnstructuredMesh(conn)]: the state of the sink after the call. *)
Definition CreateUnstructuredMesh (this : BSExtent) (conn : Connectivity)
    : outcome Connectivity :=
  if bool_decide (_nd this = 3) then
    '(lowerleft, mesh_nd) ← for_range (fun i '(ll, mesh_nd) =>
          n ← vget (_N this) i;
          if bool_decide (1 < n) then
            row ← vget ll i;
            hi ← vget row 1;
            row' ← vset row 1 (wrapT (hi - 1));
            ll' ← vset ll i row';
            Ret (ll', mesh_nd)
          else Ret (ll, mesh_nd - 1))
        3%nat 0%nat (bounds this, 3);
    if bool_decide (1 < mesh_nd) then
      indices ← GetFlatIndices this (with_bounds this lowerleft) [];
      n0 ← vget (_N this) 0;
      offset ← (if bool_decide (1 < n0) then n ← vget (_N this) 0; Ret (wrapT n)
                else n ← vget (_N this) 1; Ret (wrapT n));
      planeoffset ← (if bool_decide (mesh_nd = 2) then Ret 0
                     else n1 ← vget (_N this) 1;
                          Ret (wrapT (wrap_size (offset * n1))));
      let number_of_elements := wrapT (Z.of_nat (length indices)) in
      conn' ← for_range (fun i c =>
            x0 ← vget indices i;
            let e0 := [] ++ [x0] in
            x1 ← vget indices i;
            let e1 := e0 ++ [wrapT (x1 + 1)] in
            x2 ← vget indices i;
            let e2 := e1 ++ [wrapT (wrapT (x2 + 1) + offset)] in
            x3 ← vget indices i;
            let e3 := e2 ++ [wrapT (x3 + offset)] in
            element ←
              (if bool_decide (0 < planeoffset) then
                 x4 ← vget indices i;
                 let e4 := e3 ++ [wrapT (x4 + planeoffset)] in
                 x5 ← vget indices i;
                 let e5 := e4 ++ [wrapT (wrapT (x5 + 1) + planeoffset)] in
                 x6 ← vget indices i;
                 let e6 :=
                   e5 ++ [wrapT (wrapT (wrapT (x6 + planeoffset) + offset) + 1)] in
                 x7 ← vget indices i;
                 Ret (e6 ++ [wrapT (wrapT (x7 + planeoffset) + offset)])
               else Ret e3);
            Ret (c ++ [AddElement element]))
          (Z.to_nat number_of_elements) 0%nat conn;
      Ret (conn' ++ [ConnSync])
    else Stop AssertFailed
  else Stop AssertFailed.

End ElementType.

(** * Vocabulary of the statements *)

(** Rows that hold both bounds of their dimension. *)
Definition rows_ok (b : list (list Z)) : Prop :=
  Forall (fun row : list Z => (2 <= length row)%nat) b.

(** The derived fields as [Sync] computes them: the size of a dimension is
    [hi - lo + 1] in the arithmetic of [T], the stride of dimension 0 is 1
    and every further stride is the product of the previous size and stride
    in the arithmetic of [size_t]. *)
Definition extent_size (Tmod : Z) (row : list Z) : Z :=
  wrap_size (wrapT Tmod (wrapT Tmod (row !!! 1%nat - row !!! 0%nat) + 1)).

Definition sizes (Tmod : Z) (b : list (list Z)) : list Z :=
  extent_size Tmod <$> b.

Fixpoint strides_from (p : Z) (N : list Z) : list Z :=
  match N with
  | [] => []
  | n :: N' => p :: strides_from (wrap_size (n * p)) N'
  end.

(** The derived fields agree with the bounds. *)
Definition synced (Tmod : Z) (e : BSExtent) : Prop :=
  _nd e = Z.of_nat (length (bounds e)) /\
  _N e = sizes Tmod (bounds e) /\
  _Np e = strides_from 1 (_N e).

(** The rows that a flat sequence [lo_0, hi_0, lo_1, hi_1, ...] spells out;
    a last element without a partner belongs to no row. *)
Fixpoint pairs_of (l : list Z) : list (list Z) :=
  match l with
  | a :: b :: l' => [a; b] :: pairs_of l'
  | _ => []
  end.

(** Bound data as the construction paths are documented to require it: an
    even number of bounds, and [lo <= hi] in every dimension. *)
Definition valid_rows (b : list (list Z)) : Prop :=
  Forall (fun row : list Z => length row = 2%nat /\ row !!! 0%nat <= row !!! 1%nat) b.

Definition valid_flat (l : list Z) : Prop :=
  Nat.Even (length l) /\ valid_rows (pairs_of l).

(** The width of [T] used where a statement needs a concrete one: that of
    [size_t]. *)
Definition T64 : Z := 2 ^ 64.

(** What [Overlap] computes on rows that hold both bounds: its test passes
    in a dimension when one of the two bounds of the first range lies in the
    second range, and the region is cut out with [max] and [min]. *)
Definition endpoint_inside (ra rb : list Z) : bool :=
  bool_decide (rb !!! 0%nat <= ra !!! 0%nat) && bool_decide (ra !!! 0%nat <= rb !!! 1%nat)
  || bool_decide (rb !!! 0%nat <= ra !!! 1%nat) && bool_decide (ra !!! 1%nat <= rb !!! 1%nat).

Definition clip (ra rb : list Z) : list Z :=
  [Z.max (ra !!! 0%nat) (rb !!! 0%nat); Z.min (ra !!! 1%nat) (rb !!! 1%nat)].

Definition Overlap_rows (a b : list (list Z)) : list (list Z) :=
  if forallb (fun p => endpoint_inside p.1 p.2) (zip a b)
  then zip_with clip a b else [].

(** The operand cut down to the dimensions of [this]. *)
Definition truncated (this e : BSExtent) : BSExtent :=
  with_bounds e (take (ND this) (bounds e)).

(** An extent with the derived fields that [Sync] gives it. *)
Definition extent_of (Tmod : Z) (b : list (list Z)) : BSExtent :=
  mkBSExtent b (Z.of_nat (length b)) (strides_from 1 (sizes Tmod b)) (sizes Tmod b).

(** Some dimension keeps the two ranges apart: [A.hi < B.lo] or
    [B.hi < A.lo]. *)
Definition separated (a b : list (list Z)) : bool :=
  existsb (fun p => bool_decide (p.1 !!! 1%nat < p.2 !!! 0%nat)
                    || bool_decide (p.2 !!! 1%nat < p.1 !!! 0%nat))
          (zip a b).

(** The neighbour records of [this] in a pool under a rule [skip] that says
    which slots are passed over: the slot number and the overlap region of
    every other slot whose region is not empty, in pool order, slots being
    numbered from [i]. *)
Fixpoint neighbours (skip : nat -> BSExtent -> bool) (this : BSExtent)
    (i : nat) (pool : list BSExtent) : list (nat * BSExtent) :=
  match pool with
  | [] => []
  | p :: pool' =>
      (if skip i p then []
       else match Overlap this p BSExtent_default with
            | Ret o => if bool_decide (bounds o <> []) then [(i, o)] else []
            | Stop _ => []
            end)
      ++ neighbours skip this (S i) pool'
  end.

(** Passing over the slot at position [k], and passing over every slot whose
    bounds equal those of [this]. *)
Definition by_position (k : nat) : nat -> BSExtent -> bool :=
  fun i _ => bool_decide (i = k).

Definition by_value (this : BSExtent) : nat -> BSExtent -> bool :=
  fun _ p => bool_decide (bounds p = bounds this).

(** A query whose first [nd] rows hold both bounds and, where a row is not
    empty as a range, keep the loop variable of [dir_loop] within [T]: the
    lower bound is not negative and the upper bound can be incremented
    without wrapping around. *)
Definition query_fits (Tmod : Z) (nd : nat) (q : list (list Z)) : Prop :=
  forall j, (j < nd)%nat ->
    exists row, q !! j = Some row /\ (2 <= length row)%nat /\
      (row !!! 0%nat <= row !!! 1%nat ->
       0 <= row !!! 0%nat /\ row !!! 1%nat + 1 < Tmod).

(** The product of a list of numbers. *)
Definition mprod (l : list Z) : Z := foldr Z.mul 1 l.

(** The flat sequence [lo_0, hi_0, lo_1, hi_1, ...] of the first two entries
    of every row. *)
Definition unpairs (b : list (list Z)) : list Z :=
  b ≫= fun row : list Z => [row !!! 0%nat; row !!! 1%nat].

(** Rows of exactly two entries. *)
Definition rows_exact (b : list (list Z)) : Prop :=
  Forall (fun row : list Z => length row = 2%nat) b.

(** The size of a dimension as a number, [hi - lo + 1], and as [NNodes] and
    [GetFlatIndices] compute it in the arithmetic of [T]. *)
Definition msize (row : list Z) : Z := row !!! 1%nat - row !!! 0%nat + 1.

Definition size_T (Tmod : Z) (row : list Z) : Z :=
  wrapT Tmod (wrapT Tmod (row !!! 1%nat - row !!! 0%nat) + 1).

(** Rows with [lo <= hi]. *)
Definition ordered_rows (b : list (list Z)) : Prop :=
  Forall (fun row : list Z => row !!! 0%nat <= row !!! 1%nat) b.

(** The stride of dimension [d] as a number: the product of the sizes of the
    dimensions below [d]. *)
Definition mstride (b : list (list Z)) (d : nat) : Z :=
  mprod (msize <$> take d b).

(** The node numbers of the query [q] in the numbering of the extent [b],
    dimensions [nd - 1] down to 0, the first dimension running fastest: the
    offset [off] collects the contribution of the dimensions from [nd]
    upwards. *)
Fixpoint enum (b q : list (list Z)) (nd : nat) (off : Z) : list Z :=
  match nd with
  | O => [off + 1]
  | S d =>
      seqZ ((q !!! d) !!! 0%nat) ((q !!! d) !!! 1%nat - (q !!! d) !!! 0%nat + 1)
      ≫= fun dd => enum b q d (off + (dd - (b !!! d) !!! 0%nat) * mstride b d)
  end.

(** The bounds of the extent are values of [T] that the loop variable of
    [dir_loop] can step past. *)
Definition bounds_in_T (Tmod : Z) (b : list (list Z)) : Prop :=
  Forall (fun row : list Z => 0 <= row !!! 0%nat /\ row !!! 1%nat + 1 < Tmod) b.

(** Every row of [b] has a row of [q] in the same dimension that holds both
    bounds and lies within it. *)
Definition query_within (b q : list (list Z)) : Prop :=
  forall d rb, b !! d = Some rb ->
    exists rq, q !! d = Some rq /\ (2 <= length rq)%nat /\
               rb !!! 0%nat <= rq !!! 0%nat /\ rq !!! 1%nat <= rb !!! 1%nat.

(** The offset of the coordinate tuple [c] in the numbering of the extent
    [b] over the dimensions below [nd]: the sum of [(c_d - lo_d) * stride_d]. *)
Fixpoint moffset (b : list (list Z)) (c : list Z) (nd : nat) : Z :=
  match nd with
  | O => 0
  | S d => moffset b c d + (c !!! d - (b !!! d) !!! 0%nat) * mstride b d
  end.

(** The query that holds the single cell at the coordinate tuple [c]. *)
Definition cell_query (c : list Z) : list (list Z) :=
  (fun x : Z => [x; x]) <$> c.

(** The number of coordinate tuples of the first [nd] rows of a query. *)
Definition query_count (q : list (list Z)) (nd : nat) : Z :=
  mprod ((fun row : list Z => Z.max 0 (msize row)) <$> take nd q).

(** The quadrilateral and the hexahedron at the lower-left node [i], for a
    row stride [o] and a plane stride [p]. *)
Definition quad_of (o i : Z) : list Z := [i; i + 1; i + 1 + o; i + o].

Definition hex_of (o p i : Z) : list Z :=
  quad_of o i ++ [i + p; i + 1 + p; i + p + o + 1; i + p + o].

(** The element that [CreateUnstructuredMesh] assembles for the node [x], in
    the arithmetic of [T]. *)
Definition element_of (Tmod offset planeoffset x : Z) : list Z :=
  [x; wrapT Tmod (x + 1); wrapT Tmod (wrapT Tmod (x + 1) + offset);
   wrapT Tmod (x + offset)]
  ++ (if bool_decide (0 < planeoffset)
      then [wrapT Tmod (x + planeoffset);
            wrapT Tmod (wrapT Tmod (x + 1) + planeoffset);
            wrapT Tmod (wrapT Tmod (wrapT Tmod (x + planeoffset) + offset) + 1);
            wrapT Tmod (wrapT Tmod (x + planeoffset) + offset)]
      else []).

(** The rows of the lower-left cells of an extent: the upper bound of every
    dimension of more than one node is lowered by one. *)
Definition lower_row (row : list Z) : list Z :=
  if bool_decide (1 < msize row) then <[1%nat := row !!! 1%nat - 1]> row else row.

(** The number of dimensions of more than one node. *)
Definition active_count (b : list (list Z)) : Z :=
  foldr (fun (row : list Z) (k : Z) => (if bool_decide (1 < msize row) then 1 else 0) + k)
        0 b.

(** The row stride and the element of the conversion at the lower-left node
    [i]: a hexahedron when the three dimensions have more than one node, a
    quadrilateral otherwise. *)
Definition mesh_offset (b : list (list Z)) : Z :=
  if bool_decide (1 < msize (b !!! 0%nat)) then msize (b !!! 0%nat)
  else msize (b !!! 1%nat).

Definition mesh_cell (b : list (list Z)) (i : Z) : list Z :=
  if bool_decide (active_count b = 3)
  then hex_of (mesh_offset b) (mesh_offset b * msize (b !!! 1%nat)) i
  else quad_of (mesh_offset b) i.

(** The number of cells of an extent: the product over the dimensions of the
    size less one, a dimension of one node counting once. *)
Definition cell_count (b : list (list Z)) : Z :=
  mprod ((fun row : list Z => Z.max 1 (msize row - 1)) <$> b).

(** A three-dimensional extent that the conversion can number: its derived
    fields agree with its bounds, every row holds [lo <= hi], the bounds are
    values of [T] below its largest, and the number of nodes fits [T] and
    [size_t]. *)
Definition valid_block (Tmod : Z) (this : BSExtent) : Prop :=
  synced Tmod this /\
  length (bounds this) = 3%nat /\
  rows_ok (bounds this) /\
  ordered_rows (bounds this) /\
  bounds_in_T Tmod (bounds this) /\
  mprod (msize <$> bounds this) < Tmod /\
  mprod (msize <$> bounds this) < 2 ^ 64.

(** * Properties *)

(** ** Loops and vectors *)

(** Reduce the binds of the outcome monad and nothing else. *)
Ltac bind_red := cbn [mbind outcome_bind mret outcome_ret].

Lemma returns_Ret {A : Type} (a : A) : returns (Ret a).
Proof. by exists a. Qed.

Lemma vget_lookup {A : Type} (v : list A) (i : nat) (x : A) :
  v !! i = Some x -> vget v i = Ret x.
Proof. unfold vget. by intros ->. Qed.

Lemma vset_lt {A : Type} (v : list A) (i : nat) (x : A) :
  (i < length v)%nat -> vset v i x = Ret (<[i := x]> v).
Proof. unfold vset. intros Hi. by rewrite decide_True. Qed.

Lemma at2_lookup (b : list (list Z)) (i j : nat) (row : list Z) (x : Z) :
  b !! i = Some row -> row !! j = Some x -> at2 b i j = Ret x.
Proof.
  intros Hrow Hx. unfold at2. rewrite (vget_lookup _ _ _ Hrow). simpl.
  by apply vget_lookup.
Qed.

(** A loop invariant that every iteration re-establishes holds at the exit
    of [for_range], and the loop returns. *)
Lemma for_range_inv {St : Type} (body : nat -> St -> outcome St)
    (I : nat -> St -> Prop) (count first : nat) (s : St) :
  I first s ->
  (forall i t, (first <= i < first + count)%nat -> I i t ->
               exists t', body i t = Ret t' /\ I (S i) t') ->
  exists t, for_range body count first s = Ret t /\ I (first + count)%nat t.
Proof.
  revert first s. induction count as [|count IH]; intros first s Hs Hstep.
  - exists s. split; [done|]. by rewrite Nat.add_0_r.
  - destruct (Hstep first s) as (t' & Hb & Ht'); [lia|done|].
    destruct (IH (S first) t') as (t & Hr & Ht); [done| |].
    + intros i u Hi Hu. apply Hstep; [lia|done].
    + exists t. split.
      * simpl. rewrite Hb. simpl. exact Hr.
      * by replace (first + S count)%nat with (S first + count)%nat by lia.
Qed.

(** Two loops whose bodies agree on the iterations they run agree. *)
Lemma for_range_ext {St : Type} (f g : nat -> St -> outcome St)
    (count first : nat) (s : St) :
  (forall i t, (first <= i < first + count)%nat -> f i t = g i t) ->
  for_range f count first s = for_range g count first s.
Proof.
  revert first s. induction count as [|count IH]; intros first s Hfg; [done|].
  simpl. rewrite Hfg by lia. destruct (g first s) as [t|]; simpl; [|done].
  apply IH. intros i u Hi. apply Hfg. lia.
Qed.

(** ** [Sync] and the construction paths *)

Lemma rows_ok_lookup (b : list (list Z)) (i : nat) (row : list Z) :
  rows_ok b -> b !! i = Some row ->
  row !! 0%nat = Some (row !!! 0%nat) /\ row !! 1%nat = Some (row !!! 1%nat).
Proof.
  intros Hok Hrow. unfold rows_ok in Hok. rewrite Forall_lookup in Hok.
  specialize (Hok i row Hrow). simpl in Hok.
  split; apply list_lookup_lookup_total_lt; lia.
Qed.

Lemma strides_from_length (N : list Z) (p : Z) :
  length (strides_from p N) = length N.
Proof. revert p. induction N as [|n N IH]; intros p; simpl; [done|]. by rewrite IH. Qed.

Lemma strides_from_S (N : list Z) (p : Z) (d : nat) (n q : Z) :
  N !! d = Some n -> strides_from p N !! d = Some q ->
  (S d < length N)%nat ->
  strides_from p N !! S d = Some (wrap_size (n * q)).
Proof.
  revert p d. induction N as [|m N IH]; intros p d Hn Hq Hlt; [done|].
  destruct d as [|d]; simpl in *.
  - inversion Hn; inversion Hq; subst. destruct N; simpl in *; [lia|done].
  - apply IH; [done|done|lia].
Qed.

Section SyncProofs.

Variable Tmod : Z.

Lemma Sync_sizes_loop (b : list (list Z)) (N0 : list Z) :
  rows_ok b -> length N0 = length b ->
  for_range (fun i N =>
      hi ← at2 b i 1;
      lo ← at2 b i 0;
      vset N i (wrap_size (wrapT Tmod (wrapT Tmod (hi - lo) + 1))))
    (length b) 0%nat N0 = Ret (sizes Tmod b).
Proof.
  intros Hok Hlen.
  destruct (for_range_inv
    (fun i N =>
      hi ← at2 b i 1;
      lo ← at2 b i 0;
      vset N i (wrap_size (wrapT Tmod (wrapT Tmod (hi - lo) + 1))))
    (fun i N => length N = length b /\ take i N = take i (sizes Tmod b))
    (length b) 0%nat N0) as (N & HN & HlenN & Htake).
  - by rewrite !take_0.
  - intros i N Hi [HlN HtN].
    destruct (lookup_lt_is_Some_2 b i) as [row Hrow]; [lia|].
    destruct (rows_ok_lookup b i row Hok Hrow) as [H0 H1].
    rewrite (at2_lookup _ _ _ _ _ Hrow H1). simpl.
    rewrite (at2_lookup _ _ _ _ _ Hrow H0). simpl.
    rewrite vset_lt by lia. eexists. split; [done|].
    split; [by rewrite length_insert|].
    assert (Hs : sizes Tmod b !! i = Some (extent_size Tmod row)).
    { unfold sizes. by rewrite list_lookup_fmap, Hrow. }
    rewrite (take_S_r _ _ _ Hs), <- HtN.
    erewrite take_S_r; [|apply list_lookup_insert_eq; lia].
    by rewrite take_insert_ge by lia.
  - rewrite HN. f_equal. simpl in Htake.
    rewrite take_ge in Htake by lia.
    rewrite take_ge in Htake; [done|]. unfold sizes. rewrite length_fmap. lia.
Qed.

Lemma Sync_strides_loop (N : list Z) (Np0 : list Z) :
  N <> [] -> length Np0 = length N ->
  for_range (fun i Np =>
      n ← vget N (i - 1);
      p ← vget Np (i - 1);
      vset Np i (wrap_size (n * p)))
    (length N - 1) 1%nat (<[0%nat := 1]> Np0) = Ret (strides_from 1 N).
Proof.
  intros Hne Hlen.
  destruct (for_range_inv
    (fun i Np =>
      n ← vget N (i - 1);
      p ← vget Np (i - 1);
      vset Np i (wrap_size (n * p)))
    (fun i Np => length Np = length N /\ take i Np = take i (strides_from 1 N))
    (length N - 1) 1%nat (<[0%nat := 1]> Np0)) as (Np & HNp & HlenNp & Htake).
  - split; [by rewrite length_insert|].
    destruct N as [|n N]; [done|]. destruct Np0 as [|q Np0]; [done|]. done.
  - intros i Np Hi [HlNp HtNp].
    destruct i as [|d]; [lia|]. simpl. rewrite Nat.sub_0_r.
    destruct (lookup_lt_is_Some_2 N d) as [n Hn]; [lia|].
    assert (Hq : exists q, strides_from 1 N !! d = Some q).
    { apply lookup_lt_is_Some_2. rewrite strides_from_length. lia. }
    destruct Hq as [q Hq].
    assert (HNpd : Np !! d = Some q).
    { rewrite <- (lookup_take_lt Np (S d) d) by lia. rewrite HtNp.
      rewrite lookup_take_lt by lia. done. }
    rewrite (vget_lookup _ _ _ Hn). simpl.
    rewrite (vget_lookup _ _ _ HNpd). simpl.
    rewrite vset_lt by lia. eexists. split; [done|].
    split; [by rewrite length_insert|].
    assert (Hs := strides_from_S N 1 d n q Hn Hq ltac:(lia)).
    rewrite (take_S_r _ _ _ Hs), <- HtNp.
    erewrite take_S_r; [|apply list_lookup_insert_eq; lia].
    by rewrite take_insert_ge by lia.
  - rewrite HNp. f_equal.
    replace (1 + (length N - 1))%nat with (length N) in Htake
      by (destruct N; [done|simpl; lia]).
    rewrite take_ge in Htake by lia.
    rewrite take_ge in Htake; [done|]. rewrite strides_from_length. lia.
Qed.

(** [Sync] on an extent of at least one dimension whose rows hold both
    bounds returns, keeps the bounds and recomputes the derived fields. *)
Lemma Sync_spec (e : BSExtent) :
  bounds e <> [] -> rows_ok (bounds e) ->
  Sync Tmod e =
    Ret (mkBSExtent (bounds e) (Z.of_nat (length (bounds e)))
           (strides_from 1 (sizes Tmod (bounds e))) (sizes Tmod (bounds e))).
Proof.
  intros Hne Hok. unfold Sync.
  rewrite Sync_sizes_loop; [|done|by rewrite length_resize]. simpl.
  rewrite vset_lt.
  2:{ rewrite length_resize. destruct (bounds e); [done|simpl; lia]. }
  simpl.
  replace (length (bounds e) - 1)%nat with (length (sizes Tmod (bounds e)) - 1)%nat
    by (unfold sizes; by rewrite length_fmap).
  rewrite Sync_strides_loop; [done| |].
  - unfold sizes. destruct (bounds e); done.
  - unfold sizes. by rewrite length_resize, length_fmap.
Qed.

Lemma Sync_synced (e e' : BSExtent) :
  bounds e <> [] -> rows_ok (bounds e) -> Sync Tmod e = Ret e' ->
  bounds e' = bounds e /\ synced Tmod e'.
Proof.
  intros Hne Hok. rewrite Sync_spec by done. intros [= <-]. by repeat split.
Qed.

End SyncProofs.

Lemma copy_row_id (row : list Z) : copy_row row = row.
Proof.
  unfold copy_row.
  assert (H : forall acc, foldl (fun acc x => acc ++ [x]) acc row = acc ++ row).
  { induction row as [|x row IH]; intros acc; simpl.
    - by rewrite app_nil_r.
    - rewrite IH. by rewrite <- app_assoc. }
  apply H.
Qed.

Lemma copy_rows_id (b : list (list Z)) : copy_row <$> b = b.
Proof. induction b as [|row b IH]; [done|]. rewrite fmap_cons. by rewrite copy_row_id, IH. Qed.

Lemma pairs_of_lookup (i : nat) (src : list Z) (a b : Z) :
  src !! (2 * i)%nat = Some a -> src !! (2 * i + 1)%nat = Some b ->
  pairs_of src !! i = Some [a; b].
Proof.
  revert src. induction i as [|i IH]; intros src Ha Hb.
  - destruct src as [|x [|y src]]; simpl in *; try done. congruence.
  - destruct src as [|x [|y src]]; simpl in *; try done.
    apply IH.
    + by replace (i + S (i + 0))%nat with (S (2 * i)) in Ha by lia.
    + by replace (i + S (i + 0) + 1)%nat with (S (2 * i + 1)) in Hb by lia.
Qed.

Lemma pairs_of_length (l : list Z) : length (pairs_of l) = (length l / 2)%nat.
Proof.
  assert (H : length (pairs_of l) = (length l / 2)%nat /\
              forall x, length (pairs_of (x :: l)) = (S (length l) / 2)%nat).
  { induction l as [|y l [IH1 IH2]].
    - split; [done|]. intros x. done.
    - split; [apply IH2|]. intros x. simpl pairs_of. simpl length.
      rewrite IH1. replace (S (S (length l))) with (length l + 1 * 2)%nat by lia.
      rewrite Nat.div_add by lia. lia. }
  apply H.
Qed.

Lemma fill_pairs_spec (src : list Z) (nd : nat) :
  (2 * nd <= length src)%nat ->
  fill_pairs src nd = Ret (take nd (pairs_of src)).
Proof.
  intros Hlen. unfold fill_pairs.
  destruct (for_range_inv
    (fun i rows =>
      a ← vget src (2 * i);
      b ← vget src (2 * i + 1);
      vset rows i ([] ++ [a] ++ [b]))
    (fun i rows => length rows = nd /\ take i rows = take i (pairs_of src))
    nd 0%nat (replicate nd [])) as (rows & Hrows & Hl & Htake).
  - split; [by rewrite length_replicate|by rewrite !take_0].
  - intros i rows Hi [Hl Ht].
    destruct (lookup_lt_is_Some_2 src (2 * i)) as [a Ha]; [lia|].
    destruct (lookup_lt_is_Some_2 src (2 * i + 1)) as [b Hb]; [lia|].
    rewrite (vget_lookup _ _ _ Ha). bind_red.
    rewrite (vget_lookup _ _ _ Hb). bind_red.
    rewrite vset_lt by lia. eexists. split; [done|].
    split; [by rewrite length_insert|].
    rewrite (take_S_r _ _ _ (pairs_of_lookup i src a b Ha Hb)), <- Ht.
    erewrite take_S_r; [|apply list_lookup_insert_eq; lia].
    by rewrite take_insert_ge by lia.
  - rewrite Hrows. f_equal. simpl in Htake. by rewrite take_ge in Htake by lia.
Qed.

Lemma pairs_of_rows_ok (l : list Z) : rows_ok (pairs_of l).
Proof.
  unfold rows_ok. apply Forall_lookup. intros i row Hrow.
  assert (H : forall (l : list Z) i row, pairs_of l !! i = Some row -> length row = 2%nat).
  { clear. intros l i. revert l. induction i as [|i IH]; intros l row.
    - destruct l as [|x [|y l]]; simpl; try done. by intros [= <-].
    - destruct l as [|x [|y l]]; simpl; try done. apply IH. }
  rewrite (H _ _ _ Hrow). done.
Qed.

Lemma rows_ok_take (b : list (list Z)) (n : nat) : rows_ok b -> rows_ok (take n b).
Proof. apply Forall_take. Qed.

(** C5 (as amended).  No construction path validates its input.  From a
    flat sequence of at least two numbers the flat constructor builds the
    rows [x0, x1], [x2, x3], ... (an odd last element is ignored); the nested
    constructor keeps at least one row of two or more entries each as it
    is; the raw-buffer constructor builds [nd >= 1] rows from a buffer of at
    least [2 * nd] numbers.  In all three the bounds are kept whatever their
    order, and the derived fields are computed from them. *)
Theorem constructors_do_not_validate (Tmod : Z) :
  (forall flat : list Z, (2 <= length flat)%nat ->
     exists e, BSExtent_flat Tmod flat = Ret e /\
               bounds e = pairs_of flat /\ synced Tmod e) /\
  (forall rows : list (list Z), rows <> [] -> rows_ok rows ->
     exists e, BSExtent_nested Tmod rows = Ret e /\
               bounds e = rows /\ synced Tmod e) /\
  (forall (src : list Z) (nd : Z), 1 <= nd -> 2 * nd <= Z.of_nat (length src) ->
     exists e, BSExtent_raw Tmod src nd = Ret e /\
               bounds e = take (Z.to_nat nd) (pairs_of src) /\ synced Tmod e).
Proof.
  split; [|split].
  - intros flat Hlen. unfold BSExtent_flat.
    assert (Hdiv : (1 <= length flat / 2)%nat).
    { apply (Nat.div_le_lower_bound (length flat) 2 1); lia. }
    rewrite fill_pairs_spec.
    2:{ pose proof (Nat.Div0.mul_div_le (length flat) 2). lia. }
    bind_red. rewrite take_ge by (rewrite pairs_of_length; lia).
    rewrite Sync_spec; simpl bounds.
    + eexists. split; [done|]. by repeat split.
    + intros Hnil. pose proof (pairs_of_length flat) as Hl.
      rewrite Hnil in Hl. cbn [length] in Hl. lia.
    + apply pairs_of_rows_ok.
  - intros rows Hne Hok. unfold BSExtent_nested. rewrite copy_rows_id.
    rewrite Sync_spec; simpl bounds; [|done|done].
    eexists. split; [done|]. by repeat split.
  - intros src nd Hnd Hlen. unfold BSExtent_raw.
    destruct (Z.ltb_spec nd 0) as [Hneg|_]; [lia|].
    rewrite fill_pairs_spec by lia. bind_red.
    rewrite Sync_spec; simpl bounds.
    + eexists. split; [done|]. by repeat split.
    + intros Hnil. apply (f_equal length) in Hnil.
      rewrite length_take, pairs_of_length in Hnil. cbn [length] in Hnil.
      assert (Hdiv : (Z.to_nat nd <= length src / 2)%nat).
      { apply Nat.div_le_lower_bound; lia. }
      lia.
    + apply rows_ok_take, pairs_of_rows_ok.
Qed.

Lemma constructors_do_not_validate_witness :
  (exists e, BSExtent_flat T64 [0; 1; 2] = Ret e /\
             bounds e = pairs_of [0; 1; 2] /\ synced T64 e) /\
  (exists e, BSExtent_nested T64 [[5; 1]] = Ret e /\
             bounds e = [[5; 1]] /\ synced T64 e) /\
  (exists e, BSExtent_raw T64 [0; 2; 0; 1] 2 = Ret e /\
             bounds e = take (Z.to_nat 2) (pairs_of [0; 2; 0; 1]) /\ synced T64 e).
Proof.
  destruct (constructors_do_not_validate T64) as (Hflat & Hnested & Hraw).
  split; [|split].
  - apply Hflat. simpl. lia.
  - apply Hnested; [discriminate|].
    constructor; [simpl; lia|constructor].
  - apply Hraw; simpl; lia.
Defined.

(** C5 (as stated) fails: a flat sequence of odd length and a row with
    [lo > hi] are both turned into extents. *)
Lemma construction_accepts_invalid_bounds :
  ~ valid_flat [0; 1; 2] /\
  BSExtent_flat T64 [0; 1; 2] = Ret (mkBSExtent [[0; 1]] 1 [1] [2]) /\
  ~ valid_rows [[5; 1]] /\
  BSExtent_nested T64 [[5; 1]] = Ret (mkBSExtent [[5; 1]] 1 [1] [2 ^ 64 - 3]).
Proof.
  split; [|split; [|split]].
  - intros [[k Hk] _]. simpl in Hk. lia.
  - by vm_compute.
  - intros H. inversion H as [|row rest [_ Hle] _]. by vm_compute in Hle.
  - by vm_compute.
Qed.

(** ** [Overlap] *)

Lemma inside_spec (a b : list (list Z)) (j k : nat) (ra rb : list Z) :
  a !! j = Some ra -> b !! j = Some rb ->
  (k < length ra)%nat -> (2 <= length rb)%nat ->
  inside a b j k =
    Ret (bool_decide (rb !!! 0%nat <= ra !!! k) && bool_decide (ra !!! k <= rb !!! 1%nat)).
Proof.
  intros Ha Hb Hk Hrb. unfold inside.
  assert (Hx : ra !! k = Some (ra !!! k)) by (by apply list_lookup_lookup_total_lt).
  assert (H0 : rb !! 0%nat = Some (rb !!! 0%nat))
    by (apply list_lookup_lookup_total_lt; lia).
  assert (H1 : rb !! 1%nat = Some (rb !!! 1%nat))
    by (apply list_lookup_lookup_total_lt; lia).
  rewrite (at2_lookup _ _ _ _ _ Ha Hx). bind_red.
  rewrite (at2_lookup _ _ _ _ _ Hb H0). bind_red.
  destruct (bool_decide (rb !!! 0%nat <= ra !!! k)); [|done].
  by rewrite (at2_lookup _ _ _ _ _ Hb H1).
Qed.

Lemma Overlap_test_spec (a b : list (list Z)) (j : nat) (ra rb : list Z) :
  a !! j = Some ra -> b !! j = Some rb ->
  (2 <= length ra)%nat -> (2 <= length rb)%nat ->
  Overlap_test a b j = Ret (endpoint_inside ra rb).
Proof.
  intros Ha Hb Hra Hrb. unfold Overlap_test, endpoint_inside.
  rewrite (inside_spec a b j 0 ra rb) by (done || lia). bind_red.
  destruct (bool_decide (rb !!! 0%nat <= ra !!! 0%nat) &&
            bool_decide (ra !!! 0%nat <= rb !!! 1%nat)); [done|].
  by rewrite (inside_spec a b j 1 ra rb) by (done || lia).
Qed.

Lemma Overlap_match_spec (a b : list (list Z)) (count j : nat) (m : bool) :
  rows_ok a -> rows_ok b -> (length a <= length b)%nat ->
  (j + count = length a)%nat ->
  Overlap_match a b count j m =
    Ret (m && forallb (fun p => endpoint_inside p.1 p.2) (zip (drop j a) (drop j b))).
Proof.
  intros Hoka Hokb Hlen. revert j m.
  induction count as [|count IH]; intros j m Hj.
  - simpl. rewrite (drop_ge a) by lia. simpl. by rewrite andb_true_r.
  - simpl. destruct m; [|done].
    destruct (lookup_lt_is_Some_2 a j) as [ra Ha]; [lia|].
    destruct (lookup_lt_is_Some_2 b j) as [rb Hb]; [lia|].
    unfold rows_ok in Hoka, Hokb. rewrite Forall_lookup in Hoka, Hokb.
    rewrite (Overlap_test_spec a b j ra rb Ha Hb (Hoka _ _ Ha) (Hokb _ _ Hb)).
    bind_red. rewrite IH by lia.
    rewrite (drop_S a ra j Ha), (drop_S b rb j Hb). simpl.
    by destruct (endpoint_inside ra rb).
Qed.

Lemma Overlap_resize_loop (nd : nat) (out0 : list (list Z)) :
  length out0 = nd ->
  exists out, for_range Overlap_resize_row nd 0%nat out0 = Ret out /\
              length out = nd /\ Forall (fun row : list Z => length row = 2%nat) out.
Proof.
  intros Hlen.
  destruct (for_range_inv Overlap_resize_row
    (fun i out => length out = nd /\
       forall d row, (d < i)%nat -> out !! d = Some row -> length row = 2%nat)
    nd 0%nat out0) as (out & Hout & Hl & Hrows).
  - split; [done|]. intros d row Hd. lia.
  - intros i out Hi [Hl Hrows]. unfold Overlap_resize_row.
    destruct (lookup_lt_is_Some_2 out i) as [row Hrow]; [lia|].
    rewrite (vget_lookup _ _ _ Hrow). bind_red. rewrite vset_lt by lia.
    eexists. split; [done|]. split; [by rewrite length_insert|].
    intros d row' Hd Hrow'. destruct (decide (d = i)) as [->|Hne].
    + rewrite list_lookup_insert_eq in Hrow' by lia.
      injection Hrow' as <-. by rewrite length_resize.
    + rewrite list_lookup_insert_ne in Hrow' by done.
      apply (Hrows d); [lia|done].
  - exists out. split; [done|]. split; [done|].
    apply Forall_lookup. intros d row Hrow. apply (Hrows d); [|done].
    apply lookup_lt_Some in Hrow. simpl. lia.
Qed.

Lemma insert_both (row : list Z) (x y : Z) :
  length row = 2%nat -> <[1%nat := y]> (<[0%nat := x]> row) = [x; y].
Proof. destruct row as [|? [|? [|? ?]]]; done. Qed.

Lemma Overlap_clip_loop (a b out0 : list (list Z)) :
  rows_ok a -> rows_ok b -> (length a <= length b)%nat ->
  length out0 = length a ->
  Forall (fun row : list Z => length row = 2%nat) out0 ->
  for_range (Overlap_clip_row a b) (length a) 0%nat out0 = Ret (zip_with clip a b).
Proof.
  intros Hoka Hokb Hlen Hl0 Hrows0.
  assert (Hlz : length (zip_with clip a b) = length a).
  { rewrite length_zip_with. lia. }
  destruct (for_range_inv (Overlap_clip_row a b)
    (fun i out => length out = length a /\
       Forall (fun row : list Z => length row = 2%nat) out /\
       take i out = take i (zip_with clip a b))
    (length a) 0%nat out0) as (out & Hout & Hl & _ & Htake).
  - by rewrite !take_0.
  - intros i out Hi (Hl & Hrows & Ht). unfold Overlap_clip_row.
    destruct (lookup_lt_is_Some_2 a i) as [ra Ha]; [lia|].
    destruct (lookup_lt_is_Some_2 b i) as [rb Hb]; [lia|].
    destruct (lookup_lt_is_Some_2 out i) as [row Hrow]; [lia|].
    destruct (rows_ok_lookup a i ra Hoka Ha) as [Ha0 Ha1].
    destruct (rows_ok_lookup b i rb Hokb Hb) as [Hb0 Hb1].
    assert (Hrl : length row = 2%nat).
    { rewrite Forall_lookup in Hrows. by apply (Hrows i). }
    rewrite (at2_lookup _ _ _ _ _ Ha Ha0). bind_red.
    rewrite (at2_lookup _ _ _ _ _ Hb Hb0). bind_red.
    rewrite (vget_lookup _ _ _ Hrow). bind_red.
    rewrite vset_lt by lia. bind_red.
    rewrite vset_lt by lia. bind_red.
    rewrite (at2_lookup _ _ _ _ _ Ha Ha1). bind_red.
    rewrite (at2_lookup _ _ _ _ _ Hb Hb1). bind_red.
    rewrite (vget_lookup _ _ (<[0%nat := Z.max (ra !!! 0%nat) (rb !!! 0%nat)]> row))
      by (apply list_lookup_insert_eq; lia).
    bind_red. rewrite vset_lt by (rewrite length_insert; lia). bind_red.
    rewrite vset_lt by (rewrite length_insert; lia).
    rewrite list_insert_insert_eq, insert_both by done.
    eexists. split; [done|]. split; [by rewrite length_insert|]. split.
    + apply Forall_insert; done.
    + assert (Hz : zip_with clip a b !! i = Some (clip ra rb)).
      { rewrite lookup_zip_with, Ha. simpl. by rewrite Hb. }
      rewrite (take_S_r _ _ _ Hz), <- Ht.
      erewrite take_S_r; [|apply list_lookup_insert_eq; lia].
      by rewrite take_insert_ge by lia.
  - rewrite Hout. f_equal. simpl in Htake.
    rewrite take_ge in Htake by lia. by rewrite take_ge in Htake by lia.
Qed.

(** [Overlap] on operands whose rows hold both bounds, the second with at
    least the dimensions of the first: the call returns, the bounds of
    [outextent] become [Overlap_rows], and its derived fields stay as they
    were. *)
Lemma Overlap_spec (this inextent outextent : BSExtent) :
  rows_ok (bounds this) -> rows_ok (bounds inextent) ->
  (ND this <= ND inextent)%nat ->
  Overlap this inextent outextent =
    Ret (with_bounds outextent (Overlap_rows (bounds this) (bounds inextent))).
Proof.
  intros Hoka Hokb Hlen. unfold Overlap, Overlap_rows, ND in *.
  rewrite Overlap_match_spec by (done || lia). rewrite !drop_0. bind_red.
  rewrite andb_true_l.
  destruct (forallb _ _); [|done].
  destruct (Overlap_resize_loop (length (bounds this))
              (resize (length (bounds this)) [] []))
    as (out & Hout & Hl & Hrows); [by rewrite length_resize|].
  rewrite Hout. bind_red.
  by rewrite Overlap_clip_loop.
Qed.

Lemma BSExtent_nested_extent_of (Tmod : Z) (rows : list (list Z)) :
  rows <> [] -> rows_ok rows ->
  BSExtent_nested Tmod rows = Ret (extent_of Tmod rows).
Proof.
  intros Hne Hok. unfold BSExtent_nested. rewrite copy_rows_id.
  by rewrite Sync_spec.
Qed.

(** [Overlap] leaves the derived fields of [outextent] alone. *)
Lemma Overlap_keeps_derived (this inextent outextent o : BSExtent) :
  Overlap this inextent outextent = Ret o ->
  _nd o = _nd outextent /\ _Np o = _Np outextent /\ _N o = _N outextent.
Proof.
  unfold Overlap. destruct (Overlap_match _ _ _ _ _) as [[|]|]; bind_red.
  - destruct (for_range Overlap_resize_row _ _ _) as [out2|]; bind_red; [|done].
    destruct (for_range (Overlap_clip_row _ _) _ _ _) as [out3|]; bind_red; [|done].
    by intros [= <-].
  - by intros [= <-].
  - done.
Qed.

(** Ranges that a dimension keeps apart give no region. *)
Lemma Overlap_rows_separated (a b : list (list Z)) :
  valid_rows a -> valid_rows b -> separated a b = true -> Overlap_rows a b = [].
Proof.
  intros Ha Hb Hsep. unfold Overlap_rows.
  destruct (forallb _ _) eqn:Hall; [|done]. exfalso.
  unfold separated in Hsep. apply existsb_exists in Hsep as ([ra rb] & Hin & Hlt).
  rewrite forallb_forall in Hall. specialize (Hall _ Hin).
  assert (Hin' : (ra, rb) ∈ zip a b) by (by apply list_elem_of_In).
  pose proof (elem_of_zip_l _ _ _ _ Hin') as Hra.
  pose proof (elem_of_zip_r _ _ _ _ Hin') as Hrb.
  apply list_elem_of_In in Hra, Hrb.
  unfold valid_rows in Ha, Hb. rewrite Forall_forall in Ha, Hb.
  destruct (Ha _ Hra) as [_ Hle1]. destruct (Hb _ Hrb) as [_ Hle2].
  unfold endpoint_inside in Hall. simpl in *.
  repeat case_bool_decide; simpl in *; try done; lia.
Qed.

(** C1.  The extent [0..10] encloses the extent [3..5], and no dimension
    keeps the two apart, yet [Overlap] of the first with the second leaves
    the output without any region: neither bound of the enclosing range lies
    in the enclosed one, which is all that the test looks at.  The same
    happens to two blocks of a decomposed grid that share the face
    [[5,5],[3,5]]. *)
Theorem Overlap_misses_enclosed_range :
  BSExtent_nested T64 [[0; 10]] = Ret (extent_of T64 [[0; 10]]) /\
  BSExtent_nested T64 [[3; 5]] = Ret (extent_of T64 [[3; 5]]) /\
  valid_rows [[0; 10]] /\ valid_rows [[3; 5]] /\
  separated [[0; 10]] [[3; 5]] = false /\
  Overlap (extent_of T64 [[0; 10]]) (extent_of T64 [[3; 5]]) BSExtent_default
    = Ret (mkBSExtent [] 0 [] []) /\
  valid_rows [[0; 5]; [0; 10]] /\ valid_rows [[5; 10]; [3; 5]] /\
  separated [[0; 5]; [0; 10]] [[5; 10]; [3; 5]] = false /\
  Overlap (extent_of T64 [[0; 5]; [0; 10]]) (extent_of T64 [[5; 10]; [3; 5]])
      BSExtent_default
    = Ret (mkBSExtent [] 0 [] []).
Proof.
  repeat split; try by vm_compute.
  all: repeat constructor; by vm_compute.
Qed.

(** C4.  [Overlap] is not symmetric: of the enclosing extent [0..10] with
    the enclosed [3..5] it leaves no region, of the enclosed with the
    enclosing it leaves the region [3..5]. *)
Theorem Overlap_not_symmetric :
  Overlap (extent_of T64 [[0; 10]]) (extent_of T64 [[3; 5]]) BSExtent_default
    = Ret (mkBSExtent [] 0 [] []) /\
  Overlap (extent_of T64 [[3; 5]]) (extent_of T64 [[0; 10]]) BSExtent_default
    = Ret (mkBSExtent [[3; 5]] 0 [] []).
Proof. split; by vm_compute. Qed.

(** C3.  [Overlap] of [[0,5],[0,5]] with [[5,10],[0,5]] fills the bounds
    [[5,5],[0,5]] into a default-constructed output and returns it with the
    dimension count 0 and empty size and stride vectors: the derived fields
    do not agree with the bounds. *)
Theorem Overlap_leaves_derived_fields_stale :
  Overlap (extent_of T64 [[0; 5]; [0; 5]]) (extent_of T64 [[5; 10]; [0; 5]])
      BSExtent_default
    = Ret (mkBSExtent [[5; 5]; [0; 5]] 0 [] []) /\
  ~ synced T64 (mkBSExtent [[5; 5]; [0; 5]] 0 [] []) /\
  synced T64 (extent_of T64 [[5; 5]; [0; 5]]).
Proof.
  split; [by vm_compute|]. split.
  - intros (Hnd & _). by vm_compute in Hnd.
  - by repeat split.
Qed.

(** ** [FindSharedNodes] *)

Section FindSharedNodesProofs.

Variable Tmod : Z.

Lemma wrapT_succ (i : nat) :
  wrapT Tmod (wrapT Tmod (Z.of_nat i) + 1) = wrapT Tmod (Z.of_nat (S i)).
Proof.
  unfold wrapT. rewrite Zplus_mod_idemp_l. f_equal. lia.
Qed.

(** The outputs of the loop are the vectors it started from followed by
    what the same loop adds to empty vectors. *)
Lemma FindSharedNodes_loop_app (this : BSExtent) (pool : list BSExtent)
    (nindex : Z) (sh : list BSExtent) (nb : list Z) :
  FindSharedNodes_loop Tmod this pool nindex sh nb =
    (fun r : list BSExtent * list Z => (sh ++ r.1, nb ++ r.2))
      <$> FindSharedNodes_loop Tmod this pool nindex [] [].
Proof.
  revert nindex sh nb. induction pool as [|epi pool IH]; intros nindex sh nb.
  - simpl. by rewrite !app_nil_r.
  - simpl.
    assert (Hfin : forall (s : list BSExtent) (n : list Z),
      FindSharedNodes_loop Tmod this pool (wrapT Tmod (nindex + 1)) (sh ++ s) (nb ++ n) =
      (fun r : list BSExtent * list Z => (sh ++ r.1, nb ++ r.2))
        <$> FindSharedNodes_loop Tmod this pool (wrapT Tmod (nindex + 1)) s n).
    { intros s n. rewrite (IH _ (sh ++ s) (nb ++ n)), (IH _ s n).
      destruct (FindSharedNodes_loop Tmod this pool _ [] []) as [[s' n']|]; [|done].
      simpl. by rewrite !app_assoc. }
    pose proof (Hfin [] []) as Hfin0. rewrite !app_nil_r in Hfin0.
    case_bool_decide; bind_red; [|exact Hfin0].
    destruct (Overlap this epi BSExtent_default) as [o|]; bind_red; [|done].
    case_bool_decide; bind_red; [|exact Hfin0].
    exact (Hfin [o] [nindex]).
Qed.

(** The loop appends as many neighbour indices as overlap regions. *)
Lemma FindSharedNodes_loop_lengths (this : BSExtent) (pool : list BSExtent)
    (nindex : Z) (sh s : list BSExtent) (nb n : list Z) :
  FindSharedNodes_loop Tmod this pool nindex sh nb = Ret (s, n) ->
  length sh = length nb -> length s = length n.
Proof.
  revert nindex sh nb. induction pool as [|epi pool IH]; intros nindex sh nb.
  - simpl. intros [= <- <-]. done.
  - simpl. case_bool_decide; bind_red; [|apply IH].
    destruct (Overlap this epi BSExtent_default) as [o|]; bind_red; [|done].
    case_bool_decide; bind_red; [|apply IH].
    intros Hrun Hlen. apply (IH _ _ _ Hrun). rewrite !length_app. simpl. lia.
Qed.

(** The loop computes the neighbour records under the by-value rule. *)
Lemma FindSharedNodes_loop_spec (this : BSExtent) (pool : list BSExtent)
    (i : nat) (sh : list BSExtent) (nb : list Z) :
  (forall p, p ∈ pool -> bounds p <> bounds this ->
             returns (Overlap this p BSExtent_default)) ->
  FindSharedNodes_loop Tmod this pool (wrapT Tmod (Z.of_nat i)) sh nb =
    Ret (sh ++ (neighbours (by_value this) this i pool).*2,
         nb ++ ((fun r : nat * BSExtent => wrapT Tmod (Z.of_nat r.1))
                  <$> neighbours (by_value this) this i pool)).
Proof.
  revert i sh nb. induction pool as [|epi pool IH]; intros i sh nb Hret.
  - simpl. by rewrite !app_nil_r.
  - assert (Hpool : forall p, p ∈ pool -> bounds p <> bounds this ->
                      returns (Overlap this p BSExtent_default)).
    { intros p Hp. apply Hret. by right. }
    simpl. unfold by_value at 1 3. rewrite wrapT_succ.
    case_bool_decide as Hne.
    + rewrite bool_decide_false by done.
      destruct (Hret epi) as [o Ho]; [by left|done|].
      rewrite Ho. bind_red. case_bool_decide; bind_red.
      * rewrite IH by done. simpl. by rewrite <- !app_assoc.
      * by rewrite IH.
    + rewrite bool_decide_true by (by destruct (decide (bounds epi = bounds this))).
      bind_red. by rewrite IH.
Qed.

End FindSharedNodesProofs.

(** C2 (as amended).  [FindSharedNodes] passes over every pool entry whose
    bounds equal those of the querying extent, wherever it stands in the
    pool, computes [Overlap] of the querying extent with every other entry,
    and reports the slot number (counted in [T]) and the region of those
    whose region is not empty, in pool order; the number of regions is the
    number of such entries. *)
Theorem FindSharedNodes_skips_by_value (Tmod : Z) (this : BSExtent)
    (pool sh0 : list BSExtent) (nb0 : list Z) :
  (forall p, p ∈ pool -> bounds p <> bounds this ->
             returns (Overlap this p BSExtent_default)) ->
  FindSharedNodes Tmod this pool sh0 nb0 =
    Ret ((neighbours (by_value this) this 0 pool).*2,
         nb0 ++ ((fun r : nat * BSExtent => wrapT Tmod (Z.of_nat r.1))
                   <$> neighbours (by_value this) this 0 pool)).
Proof.
  intros Hret. unfold FindSharedNodes.
  change 0 with (wrapT Tmod (Z.of_nat 0)) at 1.
  by rewrite FindSharedNodes_loop_spec.
Qed.

Lemma FindSharedNodes_skips_by_value_witness :
  FindSharedNodes T64 (extent_of T64 [[0; 5]])
      [extent_of T64 [[0; 5]]; extent_of T64 [[5; 9]]; extent_of T64 [[0; 5]];
       extent_of T64 [[7; 9]]]
      [] [] =
    Ret ([mkBSExtent [[5; 5]] 0 [] []], [1]).
Proof.
  refine (FindSharedNodes_skips_by_value T64 _ _ [] [] _).
  intros p Hp _.
  repeat (apply elem_of_cons in Hp as [->|Hp]; [eexists; vm_compute; reflexivity|]).
  by apply elem_of_nil in Hp.
Defined.

(** C2 (as stated) fails: with the querying extent in slot 0 and an extent
    of the same bounds in slot 1, skipping by position leaves slot 1 to be
    reported with its region, and [FindSharedNodes] reports nothing. *)
Lemma FindSharedNodes_skips_equal_bounds :
  [extent_of T64 [[0; 5]]; extent_of T64 [[0; 5]]] !! 0%nat
    = Some (extent_of T64 [[0; 5]]) /\
  neighbours (by_position 0) (extent_of T64 [[0; 5]]) 0
    [extent_of T64 [[0; 5]]; extent_of T64 [[0; 5]]]
    = [(1%nat, mkBSExtent [[0; 5]] 0 [] [])] /\
  FindSharedNodes T64 (extent_of T64 [[0; 5]])
    [extent_of T64 [[0; 5]]; extent_of T64 [[0; 5]]] [] []
    = Ret ([], []).
Proof. repeat split; by vm_compute. Qed.

(** C10.  Whatever the output vectors hold at the call, the regions returned
    are those of a call with empty vectors, and the indices returned are the
    former contents of [neighbors] followed by the indices of that call, one
    for every region; so after a call with a non-empty [neighbors] the two
    outputs differ in length. *)
Theorem FindSharedNodes_appends_to_neighbors (Tmod : Z) (this : BSExtent)
    (pool sh0 sh : list BSExtent) (nb0 nb : list Z) :
  FindSharedNodes Tmod this pool sh0 nb0 = Ret (sh, nb) ->
  exists idx,
    FindSharedNodes Tmod this pool [] [] = Ret (sh, idx) /\
    nb = nb0 ++ idx /\
    length idx = length sh /\
    (nb0 <> [] -> length nb <> length sh).
Proof.
  unfold FindSharedNodes. rewrite FindSharedNodes_loop_app.
  destruct (FindSharedNodes_loop Tmod this pool 0 [] []) as [[s idx]|] eqn:Hrun;
    [|done].
  simpl. intros [= <- <-]. exists idx.
  pose proof (FindSharedNodes_loop_lengths _ _ _ _ _ _ _ _ Hrun eq_refl) as Hlen.
  repeat split; [done|].
  intros Hne. rewrite length_app. destruct nb0; [done|]. simpl. lia.
Qed.

Lemma FindSharedNodes_appends_to_neighbors_witness :
  exists idx,
    FindSharedNodes T64 (extent_of T64 [[0; 5]])
      [extent_of T64 [[0; 5]]; extent_of T64 [[5; 9]]] [] []
      = Ret ([mkBSExtent [[5; 5]] 0 [] []], idx) /\
    [7; 1] = [7] ++ idx /\
    length idx = length [mkBSExtent [[5; 5]] 0 [] []] /\
    ([7] <> [] -> length [7; 1] <> length [mkBSExtent [[5; 5]] 0 [] []]).
Proof.
  apply (FindSharedNodes_appends_to_neighbors T64 (extent_of T64 [[0; 5]])
           [extent_of T64 [[0; 5]]; extent_of T64 [[5; 9]]]
           [extent_of T64 [[1; 2]]] _ [7] [7; 1]).
  vm_compute. reflexivity.
Defined.

(** ** [NodeNum] *)

Lemma wrap_size_range (z : Z) : 0 <= wrap_size z < 2 ^ 64.
Proof. unfold wrap_size, size_mod. apply Z.mod_pos_bound. lia. Qed.

Lemma vgetZ_lookup {A : Type} (v : list A) (i : Z) (x : A) :
  0 <= i -> v !! Z.to_nat i = Some x -> vgetZ v i = Ret x.
Proof.
  intros Hi Hx. unfold vgetZ. apply lookup_lt_Some in Hx as Hlt.
  rewrite bool_decide_true by lia. by apply vget_lookup.
Qed.

Lemma vgetZ_past_end {A : Type} (v : list A) (i : Z) :
  Z.of_nat (length v) <= i -> vgetZ v i = Stop OutOfRange.
Proof. intros Hi. unfold vgetZ. by rewrite bool_decide_false by lia. Qed.

Section NodeNumProofs.

Variable Tmod : Z.
Variable this : BSExtent.
Variable index : list Z.

(** The counter is a [size_t]: the condition [i >= 0] holds for each of its
    values. *)
Lemma NodeNum_cond_true (i : Z) : 0 <= i < 2 ^ 64 -> NodeNum_cond i = true.
Proof. intros Hi. unfold NodeNum_cond. apply bool_decide_true. lia. Qed.

(** A state of the loop is never past the loop. *)
Lemma NodeNum_run_inv (n : nat) :
  (exists i l0, NodeNum_run Tmod this index n = Running i l0 /\ 0 <= i < 2 ^ 64)
  \/ (exists f, NodeNum_run Tmod this index n = Faulted f).
Proof.
  unfold NodeNum_run. induction n as [|n IH].
  - left. simpl. unfold NodeNum_init. eexists _, _. split; [done|].
    apply wrap_size_range.
  - rewrite Nat.iter_succ.
    destruct IH as [(i & l0 & -> & Hi)|(f & ->)]; [|right; by exists f].
    unfold NodeNum_step. rewrite NodeNum_cond_true by done.
    destruct (NodeNum_body Tmod this index i l0) as [l0'|f].
    + left. eexists _, _. split; [done|]. apply wrap_size_range.
    + right. by exists f.
Qed.

Lemma NodeNum_run_not_Exited (n : nat) (l0 : Z) :
  NodeNum_run Tmod this index n <> Exited l0.
Proof.
  destruct (NodeNum_run_inv n) as [(i & l & -> & _)|(f & ->)]; done.
Qed.

Hypothesis this_dims : bounds this <> [].
Hypothesis this_synced : synced Tmod this.
Hypothesis this_rows : rows_ok (bounds this).
Hypothesis index_dims : length index = length (bounds this).
Hypothesis dims_fit : Z.of_nat (length (bounds this)) < 2 ^ 64.

Lemma NodeNum_body_returns (i l0 : Z) :
  0 <= i < Z.of_nat (length (bounds this)) ->
  returns (NodeNum_body Tmod this index i l0).
Proof.
  intros Hi. unfold NodeNum_body.
  destruct this_synced as (_ & HN & HNp).
  destruct (lookup_lt_is_Some_2 index (Z.to_nat i)) as [x Hx]; [lia|].
  destruct (lookup_lt_is_Some_2 (bounds this) (Z.to_nat i)) as [row Hrow]; [lia|].
  destruct (rows_ok_lookup _ _ _ this_rows Hrow) as [H0 _].
  destruct (lookup_lt_is_Some_2 (_Np this) (Z.to_nat i)) as [p Hp].
  { rewrite HNp, strides_from_length, HN. unfold sizes. rewrite length_fmap. lia. }
  rewrite (vgetZ_lookup _ _ _ (proj1 Hi) Hx). bind_red.
  rewrite (vgetZ_lookup _ _ _ (proj1 Hi) Hrow). bind_red.
  rewrite (vget_lookup _ _ _ H0). bind_red.
  rewrite (vgetZ_lookup _ _ _ (proj1 Hi) Hp). bind_red.
  apply returns_Ret.
Qed.

(** After [k] iterations, one per dimension from the last down, the counter
    stands at [D - 1 - k] in the arithmetic of [size_t]. *)
Lemma NodeNum_run_counter (k : nat) :
  (k <= length (bounds this))%nat ->
  exists l0, NodeNum_run Tmod this index k =
             Running (wrap_size (Z.of_nat (length (bounds this)) - 1 - Z.of_nat k)) l0.
Proof.
  destruct this_synced as (Hnd & _).
  unfold NodeNum_run. induction k as [|k IH]; intros Hk.
  - exists 1. simpl. unfold NodeNum_init. rewrite Hnd. do 2 f_equal. lia.
  - destruct IH as [l0 IH]; [lia|]. rewrite Nat.iter_succ, IH.
    assert (Hsmall : wrap_size (Z.of_nat (length (bounds this)) - 1 - Z.of_nat k)
                     = Z.of_nat (length (bounds this)) - 1 - Z.of_nat k).
    { unfold wrap_size, size_mod. apply Z.mod_small. lia. }
    rewrite Hsmall. unfold NodeNum_step.
    rewrite NodeNum_cond_true by lia.
    destruct (NodeNum_body_returns
                (Z.of_nat (length (bounds this)) - 1 - Z.of_nat k) l0) as [l0' ->];
      [lia|].
    exists l0'. do 2 f_equal. lia.
Qed.

End NodeNumProofs.

(** C7.  The counter of the loop in [NodeNum] is unsigned, so its condition
    [i >= 0] holds for every value the counter can take.  For an extent of
    [D >= 1] dimensions and a coordinate tuple of [D] entries, the [D]
    iterations from [D - 1] down to 0 run and leave the counter at
    [2^64 - 1]; the next iteration indexes the vectors with it, far past
    their end; and after no number of iterations has the loop been left. *)
Theorem NodeNum_loop_never_exits (Tmod : Z) (this : BSExtent) (index : list Z) :
  bounds this <> [] ->
  synced Tmod this ->
  rows_ok (bounds this) ->
  length index = length (bounds this) ->
  Z.of_nat (length (bounds this)) < 2 ^ 64 ->
  (forall i, 0 <= i < 2 ^ 64 -> NodeNum_cond i = true) /\
  (exists l0, NodeNum_run Tmod this index (length (bounds this))
              = Running (2 ^ 64 - 1) l0) /\
  NodeNum_run Tmod this index (S (length (bounds this))) = Faulted OutOfRange /\
  (forall n l0, NodeNum_run Tmod this index n <> Exited l0).
Proof.
  intros Hdims Hsync Hrows Hindex Hfit.
  assert (Hunder : exists l0, NodeNum_run Tmod this index (length (bounds this))
                              = Running (2 ^ 64 - 1) l0).
  { destruct (NodeNum_run_counter Tmod this index Hsync Hrows Hindex Hfit
                (length (bounds this))) as [l0 Hrun]; [lia|].
    exists l0. rewrite Hrun. f_equal.
    replace (Z.of_nat (length (bounds this)) - 1 - Z.of_nat (length (bounds this)))
      with (-1) by lia.
    done. }
  split; [apply NodeNum_cond_true|]. split; [done|]. split.
  - destruct Hunder as [l0 Hrun].
    change (NodeNum_run Tmod this index (S (length (bounds this))))
      with (NodeNum_step Tmod this index
              (NodeNum_run Tmod this index (length (bounds this)))).
    rewrite Hrun. unfold NodeNum_step.
    rewrite NodeNum_cond_true by lia.
    unfold NodeNum_body. rewrite (vgetZ_past_end index) by lia. done.
  - apply NodeNum_run_not_Exited.
Qed.

Lemma NodeNum_loop_never_exits_witness :
  (forall i, 0 <= i < 2 ^ 64 -> NodeNum_cond i = true) /\
  (exists l0, NodeNum_run T64 (extent_of T64 [[0; 2]; [0; 1]]) [1; 1]
                (length (bounds (extent_of T64 [[0; 2]; [0; 1]])))
              = Running (2 ^ 64 - 1) l0) /\
  NodeNum_run T64 (extent_of T64 [[0; 2]; [0; 1]]) [1; 1]
    (S (length (bounds (extent_of T64 [[0; 2]; [0; 1]])))) = Faulted OutOfRange /\
  (forall n l0, NodeNum_run T64 (extent_of T64 [[0; 2]; [0; 1]]) [1; 1] n
                <> Exited l0).
Proof.
  apply (NodeNum_loop_never_exits T64 (extent_of T64 [[0; 2]; [0; 1]]) [1; 1]).
  - discriminate.
  - repeat split.
  - repeat constructor; simpl; lia.
  - reflexivity.
  - simpl. lia.
Defined.

(** ** [GetFlatIndices] and [CreateUnstructuredMesh] *)

Lemma wrapT_small (Tmod z : Z) : 0 <= z < Tmod -> wrapT Tmod z = z.
Proof. intros Hz. unfold wrapT. by apply Z.mod_small. Qed.

Lemma wrap_size_small (z : Z) : 0 <= z < 2 ^ 64 -> wrap_size z = z.
Proof. intros Hz. unfold wrap_size, size_mod. by apply Z.mod_small. Qed.

(** C8.  With no dimension, [GetFlatIndices] does not come back with an
    empty sequence: [NP] has no element and [NP[0] = 0] writes past its end.
    The same holds for any extent without rows, whatever the query; and
    [dir_loop] entered with [nd = 0] reads [NP[-1]]. *)
Theorem GetFlatIndices_no_dimension_out_of_range (Tmod : Z) :
  GetFlatIndices Tmod BSExtent_default BSExtent_default [] = Stop OutOfRange /\
  (forall (nd : Z) (Np N : list Z) (query : BSExtent) (indices : list Z),
     GetFlatIndices Tmod (mkBSExtent [] nd Np N) query indices = Stop OutOfRange) /\
  (forall (this query : BSExtent) (indoff plane : Z) (N NP indices : list Z),
     dir_loop Tmod this 0 indoff plane N NP query indices = Stop OutOfRange).
Proof. repeat split. Qed.

Section UnitCell.

Variable Tmod : Z.
Hypothesis T_holds_8 : 8 < Tmod.

Ltac closed x := lazymatch x with context [Tmod] => fail | _ => idtac end.

(** Evaluate an operation on closed numbers or a closed vector. *)
Ltac closed_calc :=
  match goal with
  | |- context [Z.add ?a ?b] =>
      closed a; closed b;
      let v := eval vm_compute in (Z.add a b) in change (Z.add a b) with v
  | |- context [Z.sub ?a ?b] =>
      closed a; closed b;
      let v := eval vm_compute in (Z.sub a b) in change (Z.sub a b) with v
  | |- context [Z.mul ?a ?b] =>
      closed a; closed b;
      let v := eval vm_compute in (Z.mul a b) in change (Z.mul a b) with v
  | |- context [Z.to_nat ?a] =>
      closed a;
      let v := eval vm_compute in (Z.to_nat a) in change (Z.to_nat a) with v
  | |- context [Z.of_nat ?a] =>
      closed a;
      let v := eval vm_compute in (Z.of_nat a) in change (Z.of_nat a) with v
  | |- context [<[?i := ?x]> ?v] =>
      closed i; closed x; closed v;
      let w := eval vm_compute in (<[i := x]> v) in change (<[i := x]> v) with w
  end.

(** One step of the evaluation of a call on closed data: reduce a bind or a
    loop, evaluate closed arithmetic, resolve an access in range, drop a
    wrap-around of a number that fits, decide a comparison. *)
Ltac step :=
  first
  [ progress bind_red
  | progress cbn [for_range for_T dir_loop fst snd bounds _N _Np _nd
                  with_bounds ND length replicate Nat.sub]
  | closed_calc
  | match goal with
    | |- context [at2 ?b ?i ?j] => rewrite (at2_lookup b i j _ _ eq_refl eq_refl)
    | |- context [vget ?v ?i] => rewrite (vget_lookup v i _ eq_refl)
    | |- context [vset ?v ?i ?x] => rewrite (vset_lt v i x) by (cbn [length]; lia)
    | |- context [wrapT Tmod ?z] => rewrite (wrapT_small Tmod z) by lia
    | |- context [wrap_size ?z] => rewrite (wrap_size_small z) by lia
    | |- context [bool_decide ?P] =>
        first [rewrite (bool_decide_true P) by lia
              |rewrite (bool_decide_false P) by lia]
    end ].

Lemma unit_cell_extent :
  BSExtent_nested Tmod [[0; 1]; [0; 1]; [0; 1]] =
    Ret (mkBSExtent [[0; 1]; [0; 1]; [0; 1]] 3 [1; 2; 4] [2; 2; 2]).
Proof.
  rewrite BSExtent_nested_extent_of;
    [|done|repeat constructor; cbn [length]; lia].
  unfold extent_of, sizes, extent_size.
  cbn [fmap list_fmap lookup_total list_lookup_total length strides_from].
  repeat step. cbn [strides_from]. repeat step. done.
Qed.

Lemma unit_cell_flat_indices :
  GetFlatIndices Tmod (mkBSExtent [[0; 1]; [0; 1]; [0; 1]] 3 [1; 2; 4] [2; 2; 2])
    (mkBSExtent [[0; 0]; [0; 0]; [0; 0]] 3 [1; 2; 4] [2; 2; 2]) [] = Ret [1].
Proof. unfold GetFlatIndices. repeat step. done. Qed.

Lemma unit_cell_conversion (conn : Connectivity) :
  CreateUnstructuredMesh Tmod
      (mkBSExtent [[0; 1]; [0; 1]; [0; 1]] 3 [1; 2; 4] [2; 2; 2]) conn =
    Ret (conn ++ [AddElement [1; 2; 4; 3; 5; 6; 8; 7]; ConnSync]).
Proof.
  unfold CreateUnstructuredMesh. repeat step.
  unfold with_bounds. repeat step.
  rewrite unit_cell_flat_indices. repeat step.
  cbn [app]. repeat step. by rewrite <- app_assoc.
Qed.

End UnitCell.

(** C9.  For an element type with more than 8 values, the unit cell
    [[0,1],[0,1],[0,1]] is constructed with the sizes [2,2,2] and the strides
    [1,2,4], and its conversion hands the sink one element and then
    finalises it once.  The element is the hexahedron [1,2,4,3,5,6,8,7]: the
    quadrilateral [i, i+1, i+1+r, i+r] at the node [i = 1] with the row
    stride [r = 2], followed by the same four nodes moved by the plane
    stride 4. *)
Theorem unit_cell_converts_to_one_hexahedron (Tmod : Z) (conn : Connectivity) :
  8 < Tmod ->
  BSExtent_nested Tmod [[0; 1]; [0; 1]; [0; 1]] =
    Ret (mkBSExtent [[0; 1]; [0; 1]; [0; 1]] 3 [1; 2; 4] [2; 2; 2]) /\
  CreateUnstructuredMesh Tmod
      (mkBSExtent [[0; 1]; [0; 1]; [0; 1]] 3 [1; 2; 4] [2; 2; 2]) conn =
    Ret (conn ++ [AddElement [1; 2; 4; 3; 5; 6; 8; 7]; ConnSync]) /\
  [1; 2; 4; 3; 5; 6; 8; 7] =
    [1; 1 + 1; 1 + 1 + 2; 1 + 2] ++ (Z.add 4 <$> [1; 1 + 1; 1 + 1 + 2; 1 + 2]).
Proof.
  intros Hbig. split; [by apply unit_cell_extent|].
  split; [by apply unit_cell_conversion|]. reflexivity.
Qed.

Lemma unit_cell_converts_to_one_hexahedron_witness :
  BSExtent_nested T64 [[0; 1]; [0; 1]; [0; 1]] =
    Ret (mkBSExtent [[0; 1]; [0; 1]; [0; 1]] 3 [1; 2; 4] [2; 2; 2]) /\
  CreateUnstructuredMesh T64
      (mkBSExtent [[0; 1]; [0; 1]; [0; 1]] 3 [1; 2; 4] [2; 2; 2]) [] =
    Ret ([] ++ [AddElement [1; 2; 4; 3; 5; 6; 8; 7]; ConnSync]) /\
  [1; 2; 4; 3; 5; 6; 8; 7] =
    [1; 1 + 1; 1 + 1 + 2; 1 + 2] ++ (Z.add 4 <$> [1; 1 + 1; 1 + 1 + 2; 1 + 2]).
Proof.
  apply (unit_cell_converts_to_one_hexahedron T64 []). reflexivity.
Defined.

(** ** Operands of different dimension counts *)

Section Dimensions.

Variable Tmod : Z.

Lemma for_T_ext {St : Type} (f g : Z -> St -> outcome St) (last : Z)
    (count : nat) (dd : Z) (s : St) :
  (forall d t, f d t = g d t) ->
  for_T Tmod f last count dd s = for_T Tmod g last count dd s.
Proof.
  intros Hfg. revert dd s. induction count as [|count IH]; intros dd s; [done|].
  simpl. case_bool_decide; [|done]. rewrite Hfg.
  destruct (g dd s) as [t|]; bind_red; [apply IH|done].
Qed.

Lemma at2_agree (b b' : list (list Z)) (i j : nat) :
  b !! i = b' !! i -> at2 b i j = at2 b' i j.
Proof. intros H. unfold at2, vget. by rewrite H. Qed.

(** [dir_loop] reads the rows of the query below [nd] and no other. *)
Lemma dir_loop_agree (this q q' : BSExtent) (N NP : list Z) (nd : nat) :
  (forall j, (j < nd)%nat -> bounds q !! j = bounds q' !! j) ->
  forall indoff plane indices,
    dir_loop Tmod this nd indoff plane N NP q indices =
    dir_loop Tmod this nd indoff plane N NP q' indices.
Proof.
  induction nd as [|dindex IH]; intros Hrows indoff plane indices; [done|].
  simpl. rewrite (at2_agree (bounds q) (bounds q') dindex 0) by (apply Hrows; lia).
  rewrite (at2_agree (bounds q) (bounds q') dindex 1) by (apply Hrows; lia).
  destruct (vget NP dindex) as [np|]; bind_red; [|done].
  destruct (at2 (bounds q') dindex 0) as [first|]; bind_red; [|done].
  destruct (at2 (bounds q') dindex 1) as [last|]; bind_red; [|done].
  apply for_T_ext. intros dd ind. destruct dindex as [|d]; [reflexivity|].
  destruct (at2 (bounds this) (S d) 0) as [lo|]; bind_red; [|reflexivity].
  apply IH. intros j Hj. apply Hrows. lia.
Qed.

Lemma GetFlatIndices_truncated (this query : BSExtent) (indices : list Z) :
  GetFlatIndices Tmod this query indices =
  GetFlatIndices Tmod this (truncated this query) indices.
Proof.
  unfold GetFlatIndices.
  destruct (for_range _ _ _ _) as [[N NP]|]; bind_red; [|done].
  destruct (vset NP 0 0) as [NP0|]; bind_red; [|done].
  apply dir_loop_agree. intros j Hj. unfold truncated. simpl.
  by rewrite lookup_take_lt.
Qed.

Lemma Overlap_match_agree (a b b' : list (list Z)) (count j : nat) (m : bool) :
  (forall i, (i < j + count)%nat -> b !! i = b' !! i) ->
  Overlap_match a b count j m = Overlap_match a b' count j m.
Proof.
  revert j m. induction count as [|count IH]; intros j m Hrows; [done|].
  simpl. destruct m; [|done].
  assert (Htest : Overlap_test a b j = Overlap_test a b' j).
  { unfold Overlap_test, inside.
    rewrite !(at2_agree b b' j) by (apply Hrows; lia). done. }
  rewrite Htest. destruct (Overlap_test a b' j) as [c|]; bind_red; [|done].
  apply IH. intros i Hi. apply Hrows. lia.
Qed.

(** [Overlap] reads the rows of its operand below the dimension count of
    [this] and no other. *)
Lemma Overlap_truncated (this inextent outextent : BSExtent) :
  Overlap this inextent outextent =
  Overlap this (truncated this inextent) outextent.
Proof.
  unfold Overlap, truncated. simpl.
  assert (Hrows : forall i, (i < ND this)%nat ->
            bounds inextent !! i = take (ND this) (bounds inextent) !! i).
  { intros i Hi. by rewrite lookup_take_lt. }
  rewrite (Overlap_match_agree _ _ (take (ND this) (bounds inextent)))
    by (intros i Hi; apply Hrows; lia).
  destruct (Overlap_match _ _ _ _ _) as [[|]|]; bind_red; [|done|done].
  destruct (for_range Overlap_resize_row _ _ _) as [out2|]; bind_red; [|done].
  rewrite (for_range_ext (Overlap_clip_row (bounds this) (bounds inextent))
             (Overlap_clip_row (bounds this) (take (ND this) (bounds inextent)))).
  - done.
  - intros i t Hi. unfold Overlap_clip_row.
    by rewrite !(at2_agree (bounds inextent) (take (ND this) (bounds inextent)) i)
      by (apply Hrows; lia).
Qed.

Lemma Overlap_returns (this inextent outextent : BSExtent) :
  rows_ok (bounds this) -> rows_ok (bounds inextent) ->
  (ND this <= ND inextent)%nat ->
  returns (Overlap this inextent outextent).
Proof. intros Ha Hb Hlen. rewrite Overlap_spec by done. apply returns_Ret. Qed.

Lemma for_T_returns {St : Type} (body : Z -> St -> outcome St) (last : Z) :
  (forall d t, returns (body d t)) ->
  forall (count : nat) (first : Z) (s : St),
    count = Z.to_nat (last - first + 1) ->
    (first <= last -> 0 <= first /\ last + 1 < Tmod) ->
    returns (for_T Tmod body last count first s).
Proof.
  intros Hbody. induction count as [|count IH]; intros first s Hcount Hfit.
  - simpl. rewrite bool_decide_false by lia. apply returns_Ret.
  - simpl. case_bool_decide as Hle; [|apply returns_Ret].
    destruct (Hbody first s) as [t ->]. bind_red.
    rewrite wrapT_small by lia. apply IH; lia.
Qed.

Lemma dir_loop_returns (this q : BSExtent) (N NP : list Z) (nd : nat) :
  (1 <= nd)%nat -> (nd <= length NP)%nat -> (nd <= length (bounds this))%nat ->
  rows_ok (bounds this) -> query_fits Tmod nd (bounds q) ->
  forall indoff plane indices,
    returns (dir_loop Tmod this nd indoff plane N NP q indices).
Proof.
  intros Hnd HNP Hthis Hok. induction nd as [|dindex IH]; [lia|].
  intros Hq indoff plane indices. simpl.
  destruct (lookup_lt_is_Some_2 NP dindex) as [np Hnp]; [lia|].
  destruct (Hq dindex) as (row & Hrow & Hlen & Hfit); [lia|].
  destruct (lookup_lt_is_Some_2 (bounds this) dindex) as [trow Htrow]; [lia|].
  destruct (rows_ok_lookup _ _ _ Hok Htrow) as [Ht0 _].
  rewrite (vget_lookup _ _ _ Hnp). bind_red.
  rewrite (at2_lookup _ dindex 0 row (row !!! 0%nat) Hrow)
    by (apply list_lookup_lookup_total_lt; lia).
  bind_red.
  rewrite (at2_lookup _ dindex 1 row (row !!! 1%nat) Hrow)
    by (apply list_lookup_lookup_total_lt; lia).
  bind_red.
  apply for_T_returns; [|done|done].
  intros dd ind. rewrite (at2_lookup _ _ _ _ _ Htrow Ht0). bind_red.
  destruct dindex as [|d]; [apply returns_Ret|].
  apply IH; [lia|lia|lia|].
  intros j Hj. apply Hq. lia.
Qed.

Lemma GetFlatIndices_returns (this query : BSExtent) (indices : list Z) :
  bounds this <> [] -> rows_ok (bounds this) ->
  query_fits Tmod (ND this) (bounds query) ->
  returns (GetFlatIndices Tmod this query indices).
Proof.
  intros Hne Hok Hq. unfold GetFlatIndices.
  destruct (for_range_inv
    (fun nc '(N, NP) =>
        hi ← at2 (bounds this) nc 1;
        lo ← at2 (bounds this) nc 0;
        N' ← vset N nc (wrapT Tmod (wrapT Tmod (hi - lo) + 1));
        p ← match nc with
            | O => Ret 1
            | S _ => n ← vget N' (nc - 1); q ← vget NP (nc - 1);
                     Ret (wrapT Tmod (n * q))
            end;
        NP' ← vset NP nc p;
        Ret (N', NP'))
    (fun _ s => length s.1 = ND this /\ length s.2 = ND this)
    (ND this) 0%nat (replicate (ND this) 0, replicate (ND this) 0))
    as ([N NP] & Hloop & HlN & HlNP).
  - simpl. by rewrite !length_replicate.
  - intros nc [N NP] Hnc [HlN HlNP]. simpl in HlN, HlNP.
    destruct (lookup_lt_is_Some_2 (bounds this) nc) as [row Hrow];
      [unfold ND in Hnc; lia|].
    destruct (rows_ok_lookup _ _ _ Hok Hrow) as [H0 H1].
    rewrite (at2_lookup _ _ _ _ _ Hrow H1). bind_red.
    rewrite (at2_lookup _ _ _ _ _ Hrow H0). bind_red.
    rewrite vset_lt by lia. bind_red.
    destruct nc as [|nc'].
    + bind_red. rewrite vset_lt by lia. bind_red.
      eexists. split; [done|]. simpl. by rewrite !length_insert.
    + cbn [Nat.sub]. rewrite Nat.sub_0_r.
      destruct (lookup_lt_is_Some_2
                  (<[S nc' := wrapT Tmod (wrapT Tmod (row !!! 1%nat - row !!! 0%nat) + 1)]> N)
                  nc') as [n Hn]; [rewrite length_insert; lia|].
      destruct (lookup_lt_is_Some_2 NP nc') as [q' Hq']; [lia|].
      rewrite (vget_lookup _ _ _ Hn). bind_red.
      rewrite (vget_lookup _ _ _ Hq'). bind_red.
      rewrite vset_lt by lia. bind_red.
      eexists. split; [done|]. simpl. by rewrite !length_insert.
  - rewrite Hloop. bind_red. simpl in HlN, HlNP.
    assert (Hpos : (1 <= ND this)%nat).
    { unfold ND. destruct (bounds this); [done|simpl; lia]. }
    rewrite vset_lt by lia. bind_red.
    apply dir_loop_returns; try done.
    rewrite length_insert. lia.
Qed.

End Dimensions.

(** C6 (as amended).  Neither [Overlap] nor [GetFlatIndices] compares the
    dimension counts of its operands, and neither fails with a dimension
    mismatch: both run over the dimensions of [this] and read those rows of
    the other operand, so their outcome is the one they have on the operand
    cut down to the dimensions of [this].  When the rows of both operands
    hold both bounds and the other operand has at least the dimensions of
    [this], [Overlap] returns; when in addition [this] has a dimension and
    the loop variable stays within [T], [GetFlatIndices] returns. *)
Theorem operand_dimensions_not_compared (Tmod : Z) :
  (forall this inextent outextent : BSExtent,
     Overlap this inextent outextent =
     Overlap this (truncated this inextent) outextent) /\
  (forall this inextent outextent : BSExtent,
     rows_ok (bounds this) -> rows_ok (bounds inextent) ->
     (ND this <= ND inextent)%nat ->
     returns (Overlap this inextent outextent)) /\
  (forall (this query : BSExtent) (indices : list Z),
     GetFlatIndices Tmod this query indices =
     GetFlatIndices Tmod this (truncated this query) indices) /\
  (forall (this query : BSExtent) (indices : list Z),
     bounds this <> [] -> rows_ok (bounds this) ->
     query_fits Tmod (ND this) (bounds query) ->
     returns (GetFlatIndices Tmod this query indices)).
Proof.
  split; [apply Overlap_truncated|].
  split; [apply Overlap_returns|].
  split; [apply GetFlatIndices_truncated|apply GetFlatIndices_returns].
Qed.

Lemma operand_dimensions_not_compared_witness :
  returns (Overlap (extent_of T64 [[0; 5]]) (extent_of T64 [[3; 8]; [0; 1]])
             BSExtent_default) /\
  returns (GetFlatIndices T64 (extent_of T64 [[0; 2]])
             (extent_of T64 [[0; 2]; [0; 1]]) []).
Proof.
  destruct (operand_dimensions_not_compared T64) as (_ & Hov & _ & Hflat).
  split.
  - apply Hov.
    + repeat constructor; simpl; lia.
    + repeat constructor; simpl; lia.
    + unfold ND. simpl. lia.
  - apply Hflat.
    + discriminate.
    + repeat constructor; simpl; lia.
    + intros j Hj. unfold ND in Hj. simpl in Hj. destruct j as [|j]; [|lia].
      exists [0; 2]. split; [reflexivity|]. split; [simpl; lia|].
      intros _. split; [simpl; lia|reflexivity].
Defined.

(** C6 (as stated) fails: with one dimension against two, [Overlap] returns
    the region of the first dimension and [GetFlatIndices] the indices of the
    first dimension. *)
Lemma operands_of_different_dimensions_accepted :
  ND (extent_of T64 [[0; 5]]) <> ND (extent_of T64 [[3; 8]; [0; 1]]) /\
  Overlap (extent_of T64 [[0; 5]]) (extent_of T64 [[3; 8]; [0; 1]])
      BSExtent_default
    = Ret (mkBSExtent [[3; 5]] 0 [] []) /\
  ND (extent_of T64 [[0; 2]]) <> ND (extent_of T64 [[0; 2]; [0; 1]]) /\
  GetFlatIndices T64 (extent_of T64 [[0; 2]]) (extent_of T64 [[0; 2]; [0; 1]]) []
    = Ret [1; 2; 3].
Proof. repeat split; by vm_compute. Qed.

(** * Further properties of the extent class *)

From stdpp Require Import sorting.

Local Open Scope Z_scope.

(** ** Derived fields *)

Lemma mprod_app (l k : list Z) : mprod (l ++ k) = mprod l * mprod k.
Proof.
  unfold mprod. induction l as [|x l IH]; simpl.
  - by destruct (foldr Z.mul 1 k).
  - rewrite IH. lia.
Qed.

Lemma strides_from_lookup (N : list Z) (p : Z) (d : nat) :
  (d < length N)%nat ->
  strides_from p N !! d =
    Some (match d with
          | O => p
          | S _ => wrap_size (p * mprod (take d N))
          end).
Proof.
  revert p d. induction N as [|n N IH]; intros p d Hd; simpl in Hd; [lia|].
  destruct d as [|d]; [done|]. simpl. rewrite IH by lia.
  f_equal. destruct d as [|d'].
  - simpl. f_equal. unfold mprod. simpl. lia.
  - unfold wrap_size. rewrite Zmult_mod_idemp_l. f_equal.
    change (mprod (n :: take (S d') N)) with (n * mprod (take (S d') N)). lia.
Qed.

(** X1.  [Sync] on an extent with at least one row, every row holding both
    bounds, returns the extent with the same bounds and with derived fields
    that depend on the bounds alone: the dimension count, the size
    [hi - lo + 1] of every dimension and, as stride of dimension [d], the
    product of the sizes of the dimensions below [d] in the arithmetic of
    [size_t].  Running [Sync] again changes nothing. *)
Theorem Sync_derives_sizes_and_strides (Tmod : Z) (e : BSExtent) :
  bounds e <> [] -> rows_ok (bounds e) ->
  exists e',
    Sync Tmod e = Ret e' /\
    bounds e' = bounds e /\
    _nd e' = Z.of_nat (length (bounds e)) /\
    (forall d row, bounds e !! d = Some row ->
       _N e' !! d = Some (extent_size Tmod row) /\
       _Np e' !! d = Some (wrap_size (mprod (take d (sizes Tmod (bounds e)))))) /\
    Sync Tmod e' = Ret e'.
Proof.
  intros Hne Hok. rewrite Sync_spec by done. eexists. split; [done|].
  simpl. split; [done|]. split; [done|]. split.
  - intros d row Hrow. split.
    + unfold sizes. by rewrite list_lookup_fmap, Hrow.
    + rewrite strides_from_lookup.
      2:{ unfold sizes. rewrite length_fmap. by apply lookup_lt_Some in Hrow. }
      destruct d as [|d]; [done|]. do 2 f_equal. lia.
  - by rewrite Sync_spec.
Qed.

Lemma Sync_derives_sizes_and_strides_witness :
  exists e',
    Sync T64 (mkBSExtent [[0; 2]; [1; 4]; [0; 1]] 7 [9] [8; 8]) = Ret e' /\
    bounds e' = [[0; 2]; [1; 4]; [0; 1]] /\
    _nd e' = 3 /\
    (forall d row, [[0; 2]; [1; 4]; [0; 1]] !! d = Some row ->
       _N e' !! d = Some (extent_size T64 row) /\
       _Np e' !! d =
         Some (wrap_size (mprod (take d (sizes T64 [[0; 2]; [1; 4]; [0; 1]]))))) /\
    Sync T64 e' = Ret e'.
Proof.
  apply (Sync_derives_sizes_and_strides T64
           (mkBSExtent [[0; 2]; [1; 4]; [0; 1]] 7 [9] [8; 8])).
  - discriminate.
  - repeat constructor; simpl; lia.
Defined.

Lemma mprod_cons (x : Z) (l : list Z) : mprod (x :: l) = x * mprod l.
Proof. done. Qed.

Lemma mprod_pos (l : list Z) : Forall (fun x => 1 <= x) l -> 1 <= mprod l.
Proof.
  induction 1 as [|x l Hx _ IH]; [done|]. rewrite mprod_cons. nia.
Qed.

Lemma mprod_take_le (l : list Z) (d : nat) :
  Forall (fun x => 1 <= x) l ->
  1 <= mprod (take d l) /\ mprod (take d l) <= mprod l.
Proof.
  intros Hl. rewrite <- (take_drop d l) at 3. rewrite mprod_app.
  pose proof (mprod_pos (take d l) (Forall_take _ _ _ Hl)).
  pose proof (mprod_pos (drop d l) (Forall_drop _ _ _ Hl)). nia.
Qed.

Lemma mprod_factor_le (l : list Z) (d : nat) (x : Z) :
  Forall (fun x => 1 <= x) l -> l !! d = Some x ->
  1 <= x /\ x * mprod (take d l) <= mprod l.
Proof.
  intros Hl Hx.
  pose proof (proj1 (Forall_lookup _ _) Hl d x Hx) as Hx1. simpl in Hx1.
  split; [done|].
  rewrite <- (take_drop d l) at 2. rewrite mprod_app.
  rewrite (drop_S l x d Hx), mprod_cons.
  pose proof (mprod_pos (take d l) (Forall_take _ _ _ Hl)).
  pose proof (mprod_pos (drop (S d) l) (Forall_drop _ _ _ Hl)). nia.
Qed.

Lemma msize_pos (b : list (list Z)) :
  ordered_rows b -> Forall (fun x => 1 <= x) (msize <$> b).
Proof.
  intros Hb. apply Forall_fmap. unfold ordered_rows in Hb.
  induction Hb as [|row b Hrow _ IH]; constructor; [|done].
  unfold msize. simpl. lia.
Qed.

(** Where the number of nodes fits the type, the size computed in [T] is
    the size. *)
Lemma size_T_exact (Tmod : Z) (b : list (list Z)) (d : nat) (row : list Z) :
  ordered_rows b -> mprod (msize <$> b) < Tmod -> b !! d = Some row ->
  size_T Tmod row = msize row /\ 1 <= msize row < Tmod.
Proof.
  intros Hb Hfit Hrow.
  assert (Hm : (msize <$> b) !! d = Some (msize row))
    by (by rewrite list_lookup_fmap, Hrow).
  destruct (mprod_factor_le _ _ _ (msize_pos b Hb) Hm) as [H1 Hle].
  pose proof (mprod_take_le (msize <$> b) d (msize_pos b Hb)) as [Ht _].
  assert (Hlt : msize row < Tmod) by nia.
  split; [|lia]. unfold size_T, msize in *.
  rewrite (wrapT_small Tmod (row !!! 1%nat - row !!! 0%nat)) by lia.
  rewrite wrapT_small by lia. done.
Qed.

Lemma sizes_T_exact (Tmod : Z) (b : list (list Z)) :
  ordered_rows b -> mprod (msize <$> b) < Tmod ->
  size_T Tmod <$> b = msize <$> b.
Proof.
  intros Hb Hfit. apply list_eq. intros d. rewrite !list_lookup_fmap.
  destruct (b !! d) as [row|] eqn:Hrow; [|done]. simpl.
  f_equal. by apply (size_T_exact Tmod b d row).
Qed.

(** ** Construction faults *)






Lemma Sync_no_dimension (Tmod : Z) (e : BSExtent) :
  bounds e = [] -> Sync Tmod e = Stop OutOfRange.
Proof. intros He. unfold Sync. rewrite He. cbn [length]. rewrite !resize_0. reflexivity. Qed.





(** ** [Flatten] and [NNodes] *)

Lemma Flatten_fold (b : list (list Z)) (acc : list Z) :
  rows_ok b ->
  foldl (fun (acc : outcome (list Z)) (row : list Z) =>
           out ← acc;
           lo ← vget row 0;
           hi ← vget row 1;
           Ret (out ++ [lo] ++ [hi]))
        (Ret acc) b = Ret (acc ++ unpairs b).
Proof.
  intros Hok. revert acc. induction Hok as [|row b Hrow _ IH]; intros acc.
  - simpl. by rewrite app_nil_r.
  - cbn [foldl]. bind_red.
    rewrite (vget_lookup row 0 (row !!! 0%nat))
      by (apply list_lookup_lookup_total_lt; lia).
    bind_red.
    rewrite (vget_lookup row 1 (row !!! 1%nat))
      by (apply list_lookup_lookup_total_lt; lia).
    bind_red. rewrite IH. unfold unpairs. simpl. by rewrite <- app_assoc.
Qed.

Lemma Flatten_spec (e : BSExtent) (output : list Z) :
  rows_ok (bounds e) -> Flatten e output = Ret (unpairs (bounds e)).
Proof. intros Hok. unfold Flatten. by rewrite Flatten_fold. Qed.

Lemma unpairs_pairs_of (l : list Z) :
  unpairs (pairs_of l) = take (2 * (length l / 2)) l.
Proof.
  assert (H : unpairs (pairs_of l) = take (2 * (length l / 2)) l /\
              forall x, unpairs (pairs_of (x :: l))
                        = take (2 * (S (length l) / 2)) (x :: l)).
  { induction l as [|y l [IH1 IH2]].
    - split; [done|]. intros x. done.
    - split; [apply IH2|]. intros x.
      cbn [pairs_of length]. unfold unpairs in *. cbn [mbind list_bind].
      rewrite IH1.
      replace (S (S (length l))) with (length l + 1 * 2)%nat by lia.
      rewrite Nat.div_add by lia.
      replace (2 * (length l / 2 + 1))%nat with (S (S (2 * (length l / 2)))) by lia.
      done. }
  apply H.
Qed.

Lemma pairs_of_unpairs (b : list (list Z)) :
  rows_exact b -> pairs_of (unpairs b) = b.
Proof.
  induction 1 as [|row b Hrow _ IH]; [done|].
  destruct row as [|lo [|hi [|? ?]]]; try done.
  unfold unpairs in *. cbn [mbind list_bind]. simpl. by rewrite IH.
Qed.

Lemma rows_exact_ok (b : list (list Z)) : rows_exact b -> rows_ok b.
Proof.
  unfold rows_exact, rows_ok. induction 1 as [|row b Hrow _ IH];
    constructor; [lia|done].
Qed.

Lemma unpairs_length (b : list (list Z)) : length (unpairs b) = (2 * length b)%nat.
Proof.
  unfold unpairs. induction b as [|row b IH]; [done|].
  cbn [mbind list_bind]. simpl. rewrite IH. lia.
Qed.

(** X3.  Flattening the extent that the flat constructor builds from a
    sequence gives back the sequence without its odd last element, so an
    even-length sequence comes back unchanged. *)
Theorem Flatten_after_flat_constructor (Tmod : Z) (flat output : list Z) :
  (2 <= length flat)%nat ->
  exists e,
    BSExtent_flat Tmod flat = Ret e /\
    Flatten e output = Ret (take (2 * (length flat / 2)) flat) /\
    (Nat.Even (length flat) -> Flatten e output = Ret flat).
Proof.
  intros Hlen. unfold BSExtent_flat.
  assert (Hdiv : (1 <= length flat / 2)%nat)
    by (apply (Nat.div_le_lower_bound (length flat) 2 1); lia).
  pose proof (Nat.Div0.mul_div_le (length flat) 2) as Hmul.
  rewrite fill_pairs_spec by lia. bind_red.
  rewrite take_ge by (rewrite pairs_of_length; lia).
  rewrite Sync_spec; simpl bounds.
  - eexists. split; [done|].
    assert (Hflat : Flatten
              (mkBSExtent (pairs_of flat) (Z.of_nat (length (pairs_of flat)))
                 (strides_from 1 (sizes Tmod (pairs_of flat)))
                 (sizes Tmod (pairs_of flat))) output
            = Ret (take (2 * (length flat / 2)) flat)).
    { rewrite Flatten_spec by apply pairs_of_rows_ok. simpl.
      by rewrite unpairs_pairs_of. }
    split; [done|]. intros [k Hk]. rewrite Hflat. f_equal.
    apply take_ge. rewrite Hk.
    replace (2 * k)%nat with (k * 2)%nat by lia. rewrite Nat.div_mul by lia. lia.
  - intros Hnil. pose proof (pairs_of_length flat) as Hl.
    rewrite Hnil in Hl. cbn [length] in Hl. lia.
  - apply pairs_of_rows_ok.
Qed.

Lemma Flatten_after_flat_constructor_witness :
  exists e,
    BSExtent_flat T64 [0; 2; 1; 4] = Ret e /\
    Flatten e [9; 9] = Ret (take (2 * (length [0; 2; 1; 4] / 2)) [0; 2; 1; 4]) /\
    Flatten e [9; 9] = Ret [0; 2; 1; 4].
Proof.
  destruct (Flatten_after_flat_constructor T64 [0; 2; 1; 4] [9; 9])
    as (e & Hctor & Htake & Heven); [simpl; lia|].
  exists e. split; [exact Hctor|]. split; [exact Htake|].
  apply Heven. exists 2%nat. reflexivity.
Defined.

(** X4.  An extent of at least one dimension with exactly two entries in
    every row is flattened to [2 * D] numbers from which the flat
    constructor and [Init] build the same bounds again, with the derived
    fields that [Sync] gives them; an extent whose derived fields agree with
    its bounds comes back as it was. *)
Theorem flat_constructor_after_Flatten (Tmod : Z) (e other : BSExtent)
    (output : list Z) :
  bounds e <> [] -> rows_exact (bounds e) ->
  exists flat,
    Flatten e output = Ret flat /\
    length flat = (2 * ND e)%nat /\
    BSExtent_flat Tmod flat = Ret (extent_of Tmod (bounds e)) /\
    Init Tmod other flat = Ret (extent_of Tmod (bounds e)) /\
    (synced Tmod e -> BSExtent_flat Tmod flat = Ret e).
Proof.
  intros Hne Hexact. pose proof (rows_exact_ok _ Hexact) as Hok.
  exists (unpairs (bounds e)). split; [by apply Flatten_spec|].
  split; [apply unpairs_length|].
  assert (Hlen : (length (unpairs (bounds e)) / 2 = length (bounds e))%nat).
  { rewrite unpairs_length.
    replace (2 * length (bounds e))%nat with (length (bounds e) * 2)%nat by lia.
    apply Nat.div_mul. lia. }
  assert (Hfill : fill_pairs (unpairs (bounds e)) (length (unpairs (bounds e)) / 2)
                  = Ret (bounds e)).
  { rewrite fill_pairs_spec by (rewrite Hlen, unpairs_length; lia).
    rewrite pairs_of_unpairs by done. by rewrite Hlen, firstn_all. }
  assert (Hflat : BSExtent_flat Tmod (unpairs (bounds e))
                  = Ret (extent_of Tmod (bounds e))).
  { unfold BSExtent_flat. rewrite Hfill. bind_red. by rewrite Sync_spec. }
  split; [done|]. split.
  - unfold Init. rewrite Hfill. bind_red. by rewrite Sync_spec.
  - intros (Hnd & HN & HNp). rewrite Hflat. f_equal.
    destruct e as [b nd Np N]. simpl in *. unfold extent_of. by subst.
Qed.

Lemma flat_constructor_after_Flatten_witness :
  exists flat,
    Flatten (extent_of T64 [[0; 2]; [1; 4]]) [] = Ret flat /\
    length flat = Nat.mul 2 (ND (extent_of T64 [[0; 2]; [1; 4]])) /\
    BSExtent_flat T64 flat = Ret (extent_of T64 [[0; 2]; [1; 4]]) /\
    Init T64 BSExtent_default flat = Ret (extent_of T64 [[0; 2]; [1; 4]]) /\
    BSExtent_flat T64 flat = Ret (extent_of T64 [[0; 2]; [1; 4]]).
Proof.
  destruct (flat_constructor_after_Flatten T64 (extent_of T64 [[0; 2]; [1; 4]])
              BSExtent_default [])
    as (flat & Hflat & Hlen & Hctor & Hinit & Hsame).
  - discriminate.
  - repeat constructor.
  - exists flat. split; [exact Hflat|]. split; [exact Hlen|].
    split; [exact Hctor|]. split; [exact Hinit|].
    apply Hsame. repeat split.
Defined.

Lemma NNodes_fold (Tmod : Z) (b : list (list Z)) (acc : Z) :
  rows_ok b ->
  foldl (fun (acc : outcome Z) (row : list Z) =>
           nnodes ← acc;
           hi ← vget row 1;
           lo ← vget row 0;
           Ret (wrapT Tmod (nnodes * wrapT Tmod (wrapT Tmod (hi - lo) + 1))))
        (Ret acc) b
  = Ret (match b with
         | [] => acc
         | _ => wrapT Tmod (acc * mprod (size_T Tmod <$> b))
         end).
Proof.
  intros Hok. revert acc. induction Hok as [|row b Hrow _ IH]; intros acc; [done|].
  cbn [foldl]. bind_red.
  rewrite (vget_lookup row 1 (row !!! 1%nat))
    by (apply list_lookup_lookup_total_lt; lia).
  bind_red.
  rewrite (vget_lookup row 0 (row !!! 0%nat))
    by (apply list_lookup_lookup_total_lt; lia).
  bind_red. rewrite IH. f_equal. rewrite fmap_cons, mprod_cons.
  fold (size_T Tmod row). destruct b as [|row' b].
  - unfold mprod. simpl. f_equal. lia.
  - unfold wrapT. rewrite Zmult_mod_idemp_l. f_equal. lia.
Qed.

(** X5.  [NNodes] multiplies the sizes of the dimensions in the arithmetic
    of [T]; an extent without a dimension has one node.  For bounds with
    [lo <= hi] whose product of sizes fits [T], the result is the product of
    [hi - lo + 1] over the dimensions. *)
Theorem NNodes_is_product_of_sizes (Tmod : Z) (e : BSExtent) :
  rows_ok (bounds e) ->
  NNodes Tmod e
    = Ret (match bounds e with
           | [] => 1
           | _ => wrapT Tmod (mprod (size_T Tmod <$> bounds e))
           end) /\
  (ordered_rows (bounds e) -> mprod (msize <$> bounds e) < Tmod ->
   NNodes Tmod e = Ret (mprod (msize <$> bounds e))).
Proof.
  intros Hok.
  assert (Hfold : NNodes Tmod e
    = Ret (match bounds e with
           | [] => 1
           | _ => wrapT Tmod (mprod (size_T Tmod <$> bounds e))
           end)).
  { unfold NNodes. rewrite NNodes_fold by done.
    destruct (bounds e); [done|]. do 2 f_equal. lia. }
  split; [done|]. intros Hord Hfit. rewrite Hfold.
  destruct (bounds e) as [|row b] eqn:Hb; [done|].
  rewrite sizes_T_exact by done. f_equal. apply wrapT_small.
  pose proof (mprod_pos _ (msize_pos _ Hord)). lia.
Qed.

Lemma NNodes_is_product_of_sizes_witness :
  NNodes T64 (extent_of T64 [[0; 2]; [1; 4]]) = Ret 12.
Proof.
  destruct (NNodes_is_product_of_sizes T64 (extent_of T64 [[0; 2]; [1; 4]]))
    as [_ Hexact].
  - repeat constructor; simpl; lia.
  - apply Hexact.
    + repeat constructor; simpl; lia.
    + reflexivity.
Defined.

(** ** What [Overlap] reports *)

Lemma Overlap_rows_cases (a b : list (list Z)) :
  Overlap_rows a b = [] \/
  (Overlap_rows a b = zip_with clip a b /\
   forall d ra rb, a !! d = Some ra -> b !! d = Some rb ->
                   endpoint_inside ra rb = true).
Proof.
  unfold Overlap_rows. destruct (forallb _ _) eqn:Hall; [right|by left].
  split; [done|]. intros d ra rb Ha Hb.
  rewrite forallb_forall in Hall.
  apply (Hall (ra, rb)). apply list_elem_of_In.
  apply (list_elem_of_lookup_2 _ d). rewrite lookup_zip_with, Ha. simpl.
  by rewrite Hb.
Qed.

(** X6.  For operands with [lo <= hi] in every dimension, whatever region
    [Overlap] reports is the intersection of the two extents: it has the
    dimensions of [this], each of its rows is a pair [lo, hi] with
    [lo <= hi], and a coordinate lies in the row exactly when it lies in the
    rows of both operands. *)
Theorem Overlap_region_is_intersection (this inextent outextent : BSExtent) :
  rows_ok (bounds this) -> rows_ok (bounds inextent) ->
  ordered_rows (bounds this) -> ordered_rows (bounds inextent) ->
  (ND this <= ND inextent)%nat ->
  exists o,
    Overlap this inextent outextent = Ret o /\
    (bounds o = [] \/
     (length (bounds o) = ND this /\
      forall d ra rb,
        bounds this !! d = Some ra -> bounds inextent !! d = Some rb ->
        exists ro,
          bounds o !! d = Some ro /\ length ro = 2%nat /\
          ro !!! 0%nat <= ro !!! 1%nat /\
          forall x, ro !!! 0%nat <= x <= ro !!! 1%nat <->
                    (ra !!! 0%nat <= x <= ra !!! 1%nat /\
                     rb !!! 0%nat <= x <= rb !!! 1%nat))).
Proof.
  intros Hoka Hokb Horda Hordb Hlen. rewrite Overlap_spec by done.
  eexists. split; [done|]. simpl.
  destruct (Overlap_rows_cases (bounds this) (bounds inextent))
    as [->|[-> Hin]]; [by left|right].
  split; [rewrite length_zip_with; unfold ND in *; lia|].
  intros d ra rb Ha Hb. exists (clip ra rb).
  split; [rewrite lookup_zip_with, Ha; simpl; by rewrite Hb|].
  split; [done|].
  specialize (Hin d ra rb Ha Hb).
  pose proof (proj1 (Forall_lookup _ _) Horda d ra Ha) as Hra.
  pose proof (proj1 (Forall_lookup _ _) Hordb d rb Hb) as Hrb.
  unfold endpoint_inside in Hin. unfold clip. simpl in *.
  split; [repeat case_bool_decide; simpl in *; try done; lia|].
  intros x. lia.
Qed.

Lemma Overlap_region_is_intersection_witness :
  exists o,
    Overlap (extent_of T64 [[0; 5]; [0; 5]]) (extent_of T64 [[5; 10]; [0; 5]])
      BSExtent_default = Ret o /\
    (bounds o = [] \/
     (length (bounds o) = ND (extent_of T64 [[0; 5]; [0; 5]]) /\
      forall d ra rb,
        bounds (extent_of T64 [[0; 5]; [0; 5]]) !! d = Some ra ->
        bounds (extent_of T64 [[5; 10]; [0; 5]]) !! d = Some rb ->
        exists ro,
          bounds o !! d = Some ro /\ length ro = 2%nat /\
          ro !!! 0%nat <= ro !!! 1%nat /\
          forall x, ro !!! 0%nat <= x <= ro !!! 1%nat <->
                    (ra !!! 0%nat <= x <= ra !!! 1%nat /\
                     rb !!! 0%nat <= x <= rb !!! 1%nat))).
Proof.
  apply Overlap_region_is_intersection.
  - repeat constructor; simpl; lia.
  - repeat constructor; simpl; lia.
  - repeat constructor; simpl; lia.
  - repeat constructor; simpl; lia.
  - unfold ND. simpl. lia.
Defined.

(** X7.  When every range of [this] lies within the range of the operand in
    the same dimension, [Overlap] reports [this] itself: the output receives
    the pairs [lo, hi] of [this].  In particular the overlap of an extent
    with itself is the extent. *)
Theorem Overlap_of_enclosed_extent (this inextent outextent : BSExtent) :
  rows_ok (bounds this) -> rows_ok (bounds inextent) ->
  ordered_rows (bounds this) ->
  (ND this <= ND inextent)%nat ->
  (forall d ra rb,
     bounds this !! d = Some ra -> bounds inextent !! d = Some rb ->
     rb !!! 0%nat <= ra !!! 0%nat /\ ra !!! 1%nat <= rb !!! 1%nat) ->
  Overlap this inextent outextent =
    Ret (with_bounds outextent
           ((fun row : list Z => [row !!! 0%nat; row !!! 1%nat]) <$> bounds this)) /\
  Overlap this this outextent =
    Ret (with_bounds outextent
           ((fun row : list Z => [row !!! 0%nat; row !!! 1%nat]) <$> bounds this)).
Proof.
  intros Hoka Hokb Horda Hlen Hin.
  assert (Hgen : forall b : list (list Z),
    (length (bounds this) <= length b)%nat ->
    (forall d ra rb, bounds this !! d = Some ra -> b !! d = Some rb ->
       rb !!! 0%nat <= ra !!! 0%nat /\ ra !!! 1%nat <= rb !!! 1%nat) ->
    Overlap_rows (bounds this) b
    = (fun row : list Z => [row !!! 0%nat; row !!! 1%nat]) <$> bounds this).
  { intros b Hl Hb. unfold Overlap_rows.
    assert (Hall : forallb (fun p => endpoint_inside p.1 p.2) (zip (bounds this) b)
                   = true).
    { apply forallb_forall. intros [ra rb] Hp.
      apply list_elem_of_In, list_elem_of_lookup in Hp as [d Hp].
      rewrite lookup_zip_with in Hp.
      destruct (bounds this !! d) as [ra'|] eqn:Ha; [|done]. simpl in Hp.
      destruct (b !! d) as [rb'|] eqn:Hrb; [|done]. simpl in Hp.
      injection Hp as <- <-.
      destruct (Hb d ra' rb' Ha Hrb) as [H0 H1].
      pose proof (proj1 (Forall_lookup _ _) Horda d ra' Ha) as Hra. simpl in Hra.
      unfold endpoint_inside. simpl.
      rewrite (bool_decide_true (rb' !!! 0%nat <= ra' !!! 0%nat)) by done.
      rewrite (bool_decide_true (ra' !!! 0%nat <= rb' !!! 1%nat)) by lia.
      done. }
    rewrite Hall. apply list_eq. intros d.
    rewrite lookup_zip_with, list_lookup_fmap.
    destruct (bounds this !! d) as [ra|] eqn:Ha; [|done]. simpl.
    destruct (lookup_lt_is_Some_2 b d) as [rb Hrb].
    { apply lookup_lt_Some in Ha. lia. }
    rewrite Hrb. simpl. destruct (Hb d ra rb Ha Hrb) as [H0 H1].
    unfold clip. by rewrite Z.max_l, Z.min_l by lia. }
  split.
  - rewrite Overlap_spec by done. by rewrite Hgen.
  - rewrite Overlap_spec by done. rewrite Hgen; [done|done|].
    intros d ra rb Ha Hb. rewrite Ha in Hb. injection Hb as <-. lia.
Qed.

Lemma Overlap_of_enclosed_extent_witness :
  Overlap (extent_of T64 [[3; 5]; [1; 2]]) (extent_of T64 [[0; 10]; [1; 2]])
      BSExtent_default =
    Ret (with_bounds BSExtent_default
           ((fun row : list Z => [row !!! 0%nat; row !!! 1%nat])
              <$> bounds (extent_of T64 [[3; 5]; [1; 2]]))) /\
  Overlap (extent_of T64 [[3; 5]; [1; 2]]) (extent_of T64 [[3; 5]; [1; 2]])
      BSExtent_default =
    Ret (with_bounds BSExtent_default
           ((fun row : list Z => [row !!! 0%nat; row !!! 1%nat])
              <$> bounds (extent_of T64 [[3; 5]; [1; 2]]))).
Proof.
  apply Overlap_of_enclosed_extent.
  - repeat constructor; simpl; lia.
  - repeat constructor; simpl; lia.
  - repeat constructor; simpl; lia.
  - unfold ND. simpl. lia.
  - intros d ra rb Ha Hb.
    destruct d as [|[|d]]; simpl in Ha, Hb; [| |discriminate];
      injection Ha as <-; injection Hb as <-; simpl; lia.
Defined.

(** X8.  Two calls with the operands exchanged never report different
    regions: when both orders report a region for extents of the same
    dimension count, it is the same region. *)
Theorem Overlap_orders_agree_on_region (a b outa outb oa ob : BSExtent) :
  rows_ok (bounds a) -> rows_ok (bounds b) -> ND a = ND b ->
  Overlap a b outa = Ret oa -> Overlap b a outb = Ret ob ->
  bounds oa <> [] -> bounds ob <> [] ->
  bounds oa = bounds ob.
Proof.
  intros Hoka Hokb Hnd. rewrite !Overlap_spec by (done || lia).
  intros [= <-] [= <-]. simpl.
  destruct (Overlap_rows_cases (bounds a) (bounds b)) as [->|[-> _]]; [done|].
  destruct (Overlap_rows_cases (bounds b) (bounds a)) as [->|[-> _]]; [done|].
  intros _ _. apply list_eq. intros d. rewrite !lookup_zip_with.
  destruct (bounds a !! d) as [ra|], (bounds b !! d) as [rb|]; simpl; try done.
  unfold clip. by rewrite Z.max_comm, Z.min_comm.
Qed.

Lemma Overlap_orders_agree_on_region_witness :
  bounds (mkBSExtent [[3; 5]] 0 [] []) = bounds (mkBSExtent [[3; 5]] 0 [] []).
Proof.
  apply (Overlap_orders_agree_on_region
           (extent_of T64 [[0; 5]]) (extent_of T64 [[3; 8]])
           BSExtent_default BSExtent_default).
  - repeat constructor; simpl; lia.
  - repeat constructor; simpl; lia.
  - reflexivity.
  - reflexivity.
  - reflexivity.
  - discriminate.
  - discriminate.
Defined.

(** ** The flat indices of a query *)

Lemma mstride_0 (b : list (list Z)) : mstride b 0 = 1.
Proof. done. Qed.

Lemma mstride_S (b : list (list Z)) (d : nat) (row : list Z) :
  b !! d = Some row -> mstride b (S d) = msize row * mstride b d.
Proof.
  intros Hrow. unfold mstride. rewrite (take_S_r _ _ _ Hrow), fmap_app, mprod_app.
  unfold mprod at 2. simpl. lia.
Qed.

Lemma mstride_all (b : list (list Z)) : mstride b (length b) = mprod (msize <$> b).
Proof. unfold mstride. by rewrite firstn_all. Qed.

Lemma mstride_bounds (b : list (list Z)) (d : nat) :
  ordered_rows b -> 1 <= mstride b d /\ mstride b d <= mprod (msize <$> b).
Proof.
  intros Hb. unfold mstride. rewrite fmap_take.
  apply mprod_take_le. by apply msize_pos.
Qed.

Section Enumeration.

Variable Tmod : Z.

(** The loop over [dd] with a body that appends: it returns the appended
    lists in the order of [dd]. *)
Lemma for_T_collect (g : Z -> list Z) (body : Z -> list Z -> outcome (list Z))
    (last : Z) (count : nat) (first : Z) (ind : list Z) :
  count = Z.to_nat (last - first + 1) ->
  (first <= last -> 0 <= first /\ last + 1 < Tmod) ->
  (forall dd ind', first <= dd <= last -> body dd ind' = Ret (ind' ++ g dd)) ->
  for_T Tmod body last count first ind
    = Ret (ind ++ (seqZ first (last - first + 1) ≫= g)).
Proof.
  revert first ind. induction count as [|count IH]; intros first ind Hc Hfit Hbody.
  - simpl. rewrite bool_decide_false by lia.
    rewrite seqZ_nil by lia. simpl. by rewrite app_nil_r.
  - simpl. rewrite bool_decide_true by lia.
    rewrite Hbody by lia. bind_red. rewrite wrapT_small by lia.
    rewrite IH; [|lia|lia|intros; apply Hbody; lia].
    rewrite (seqZ_cons first) by lia. cbn [mbind list_bind].
    rewrite <- app_assoc.
    replace (Z.succ first) with (first + 1) by lia.
    by replace (Z.pred (last - first + 1)) with (last - (first + 1) + 1) by lia.
Qed.

Variable this : BSExtent.
Variable query : BSExtent.
Variables Nv NP : list Z.

Hypothesis this_rows : rows_ok (bounds this).
Hypothesis this_ordered : ordered_rows (bounds this).
Hypothesis this_in_T : bounds_in_T Tmod (bounds this).
Hypothesis nodes_fit : mprod (msize <$> bounds this) < Tmod.
Hypothesis query_ok : query_within (bounds this) (bounds query).
Hypothesis NP_length : length NP = length (bounds this).
Hypothesis NP_strides :
  forall d, (1 <= d < length (bounds this))%nat ->
            NP !! d = Some (mstride (bounds this) d).

Lemma dir_loop_enum (nd : nat) :
  (1 <= nd <= length (bounds this))%nat ->
  forall off plane ind,
    0 <= off -> off + mstride (bounds this) nd <= mprod (msize <$> bounds this) ->
    dir_loop Tmod this nd off plane Nv NP query ind
      = Ret (ind ++ enum (bounds this) (bounds query) nd off).
Proof.
  induction nd as [|d IH]; [lia|]. intros Hnd off plane ind Hoff Hroom.
  destruct (lookup_lt_is_Some_2 (bounds this) d) as [rb Hrb]; [lia|].
  destruct (query_ok d rb Hrb) as (rq & Hrq & Hlq & Hlo & Hhi).
  destruct (lookup_lt_is_Some_2 NP d) as [np Hnp]; [lia|].
  destruct (rows_ok_lookup _ _ _ this_rows Hrb) as [Hb0 _].
  pose proof (proj1 (Forall_lookup _ _) this_in_T d rb Hrb) as [HT0 HT1].
  pose proof (proj1 (Forall_lookup _ _) this_ordered d rb Hrb) as Hord.
  simpl in HT0, HT1, Hord.
  pose proof (mstride_S _ _ _ Hrb) as HS.
  pose proof (mstride_bounds (bounds this) d this_ordered) as [Hs1 _].
  pose proof (mstride_bounds (bounds this) (S d) this_ordered) as [_ HsN].
  cbn [dir_loop]. rewrite (vget_lookup _ _ _ Hnp). bind_red.
  rewrite (at2_lookup _ d 0 rq (rq !!! 0%nat) Hrq)
    by (apply list_lookup_lookup_total_lt; lia).
  bind_red.
  rewrite (at2_lookup _ d 1 rq (rq !!! 1%nat) Hrq)
    by (apply list_lookup_lookup_total_lt; lia).
  bind_red.
  rewrite (for_T_collect
    (fun dd => enum (bounds this) (bounds query) d
                 (off + (dd - rb !!! 0%nat) * mstride (bounds this) d))).
  - cbn [enum].
    rewrite (list_lookup_total_correct _ _ _ Hrq),
            (list_lookup_total_correct _ _ _ Hrb).
    done.
  - done.
  - lia.
  - intros dd ind' Hdd. rewrite (at2_lookup _ _ _ _ _ Hrb Hb0). bind_red.
    unfold msize in HS.
    destruct d as [|d'].
    + rewrite mstride_0 in *. cbn [enum].
      rewrite (wrapT_small Tmod (dd - rb !!! 0%nat)) by nia.
      rewrite (wrapT_small Tmod (dd - rb !!! 0%nat + 1)) by nia.
      rewrite wrapT_small by nia. do 3 f_equal. lia.
    + rewrite (NP_strides (S d')) in Hnp by lia. injection Hnp as <-.
      rewrite (wrapT_small Tmod (dd - rb !!! 0%nat)) by nia.
      rewrite (wrapT_small Tmod (_ * _)) by nia.
      rewrite wrapT_small by nia.
      apply IH; [lia|nia|nia].
Qed.

End Enumeration.

Section FlatIndices.

Variable Tmod : Z.
Variable this : BSExtent.

Hypothesis this_dims : bounds this <> [].
Hypothesis this_rows : rows_ok (bounds this).
Hypothesis this_ordered : ordered_rows (bounds this).
Hypothesis this_in_T : bounds_in_T Tmod (bounds this).
Hypothesis nodes_fit : mprod (msize <$> bounds this) < Tmod.

(** The tables that [GetFlatIndices] builds before the enumeration hold the
    sizes and the strides of the extent. *)
Lemma GetFlatIndices_tables :
  exists N NP,
    for_range (fun nc '(N, NP) =>
        hi ← at2 (bounds this) nc 1;
        lo ← at2 (bounds this) nc 0;
        N' ← vset N nc (wrapT Tmod (wrapT Tmod (hi - lo) + 1));
        p ← match nc with
            | O => Ret 1
            | S _ => n ← vget N' (nc - 1); q ← vget NP (nc - 1);
                     Ret (wrapT Tmod (n * q))
            end;
        NP' ← vset NP nc p;
        Ret (N', NP'))
      (ND this) 0%nat (replicate (ND this) 0, replicate (ND this) 0)
    = Ret (N, NP) /\
    length NP = length (bounds this) /\
    forall d, (d < length (bounds this))%nat ->
              NP !! d = Some (mstride (bounds this) d).
Proof.
  destruct (for_range_inv
    (fun nc '(N, NP) =>
        hi ← at2 (bounds this) nc 1;
        lo ← at2 (bounds this) nc 0;
        N' ← vset N nc (wrapT Tmod (wrapT Tmod (hi - lo) + 1));
        p ← match nc with
            | O => Ret 1
            | S _ => n ← vget N' (nc - 1); q ← vget NP (nc - 1);
                     Ret (wrapT Tmod (n * q))
            end;
        NP' ← vset NP nc p;
        Ret (N', NP'))
    (fun nc s =>
       length s.1 = ND this /\ length s.2 = ND this /\
       (forall d row, (d < nc)%nat -> bounds this !! d = Some row ->
                      s.1 !! d = Some (msize row)) /\
       (forall d, (d < nc)%nat -> s.2 !! d = Some (mstride (bounds this) d)))
    (ND this) 0%nat (replicate (ND this) 0, replicate (ND this) 0))
    as ([N NP] & Hloop & HlN & HlNP & HN & HNP).
  - simpl. rewrite !length_replicate. repeat split; intros; lia.
  - intros nc [N NP] Hnc (HlN & HlNP & HN & HNP). simpl in HlN, HlNP, HN, HNP.
    unfold ND in *.
    destruct (lookup_lt_is_Some_2 (bounds this) nc) as [row Hrow]; [lia|].
    destruct (rows_ok_lookup _ _ _ this_rows Hrow) as [H0 H1].
    destruct (size_T_exact Tmod _ _ _ this_ordered nodes_fit Hrow) as [Hsize Hrange].
    rewrite (at2_lookup _ _ _ _ _ Hrow H1). bind_red.
    rewrite (at2_lookup _ _ _ _ _ Hrow H0). bind_red.
    rewrite vset_lt by lia. bind_red.
    fold (size_T Tmod row). rewrite Hsize.
    assert (HN' : forall d row', (d < S nc)%nat -> bounds this !! d = Some row' ->
                    <[nc := msize row]> N !! d = Some (msize row')).
    { intros d row' Hd Hrow'. destruct (decide (d = nc)) as [->|Hne].
      - rewrite list_lookup_insert_eq by lia. congruence.
      - rewrite list_lookup_insert_ne by done. apply HN; [lia|done]. }
    destruct nc as [|nc'].
    + bind_red. rewrite vset_lt by lia. bind_red.
      eexists. split; [done|]. simpl. rewrite !length_insert.
      repeat split; try done.
      intros d Hd. replace d with 0%nat by lia.
      rewrite list_lookup_insert_eq by lia. done.
    + cbn [Nat.sub]. rewrite Nat.sub_0_r.
      destruct (lookup_lt_is_Some_2 (bounds this) nc') as [prev Hprev]; [lia|].
      rewrite (vget_lookup _ _ _ (HN' nc' prev ltac:(lia) Hprev)). bind_red.
      rewrite (vget_lookup _ _ _ (HNP nc' ltac:(lia))). bind_red.
      rewrite vset_lt by lia. bind_red.
      rewrite <- (mstride_S _ _ _ Hprev).
      pose proof (mstride_bounds (bounds this) (S nc') this_ordered) as [Hs1 HsN].
      rewrite wrapT_small by lia.
      eexists. split; [done|]. simpl. rewrite !length_insert.
      repeat split; try done.
      intros d Hd. destruct (decide (d = S nc')) as [->|Hne].
      * by rewrite list_lookup_insert_eq by lia.
      * rewrite list_lookup_insert_ne by done. apply HNP. lia.
  - exists N, NP. simpl in HlN, HlNP, HN, HNP. unfold ND in *.
    split; [done|]. split; [done|]. intros d Hd. apply HNP. lia.
Qed.

(** Under these conditions, and for a query within the extent,
    [GetFlatIndices] returns the node numbers of the query. *)
Lemma GetFlatIndices_enum (query : BSExtent) (indices : list Z) :
  query_within (bounds this) (bounds query) ->
  GetFlatIndices Tmod this query indices
    = Ret (enum (bounds this) (bounds query) (ND this) 0).
Proof.
  intros Hq. unfold GetFlatIndices.
  destruct GetFlatIndices_tables as (N & NP & -> & HlNP & HNP). bind_red.
  assert (Hpos : (1 <= length (bounds this))%nat).
  { destruct (bounds this); [done|simpl; lia]. }
  rewrite vset_lt by lia. bind_red.
  rewrite (dir_loop_enum Tmod this query N (<[0%nat := 0]> NP)); try done.
  - by rewrite length_insert.
  - intros d Hd. rewrite list_lookup_insert_ne by lia. apply HNP. lia.
  - unfold ND. rewrite mstride_all. lia.
Qed.

End FlatIndices.

Lemma seqZ_one (m : Z) : seqZ m 1 = [m].
Proof. rewrite seqZ_cons by lia. by rewrite seqZ_nil by lia. Qed.

Lemma progression_blocks (base s lo : Z) (n : nat) :
  0 <= s ->
  seqZ lo (Z.of_nat n)
    ≫= (fun dd => (fun k => base + (dd - lo) * s + k) <$> seqZ 0 s)
  = (fun k => base + k) <$> seqZ 0 (Z.of_nat n * s).
Proof.
  intros Hs. induction n as [|n IH].
  - rewrite (seqZ_nil lo) by lia. by rewrite (seqZ_nil 0 (Z.of_nat 0 * s)) by lia.
  - rewrite seqZ_S, bind_app, IH, bind_singleton.
    replace (Z.of_nat (S n) * s) with (Z.of_nat n * s + s) by lia.
    rewrite seqZ_app by nia. rewrite fmap_app. f_equal.
    replace (0 + Z.of_nat n * s) with (Z.of_nat n * s + 0) by lia.
    rewrite <- fmap_add_seqZ, <- list_fmap_compose.
    apply list_fmap_ext. intros i k _. simpl. lia.
Qed.

Lemma length_bind_const {A B : Type} (f : A -> list B) (l : list A) (n : nat) :
  (forall x, length (f x) = n) -> length (l ≫= f) = (length l * n)%nat.
Proof.
  intros Hf. induction l as [|x l IH]; [done|].
  rewrite bind_cons, length_app, Hf, IH. simpl. lia.
Qed.

Section EnumFacts.

Variable b : list (list Z).
Hypothesis b_ordered : ordered_rows b.

(** The whole extent is numbered consecutively. *)
Lemma enum_whole (nd : nat) (off : Z) :
  (nd <= length b)%nat ->
  enum b b nd off = (fun k => off + 1 + k) <$> seqZ 0 (mstride b nd).
Proof.
  revert off. induction nd as [|d IH]; intros off Hnd.
  - rewrite mstride_0, seqZ_one. simpl. f_equal. lia.
  - destruct (lookup_lt_is_Some_2 b d) as [rb Hrb]; [lia|].
    pose proof (proj1 (Forall_lookup _ _) b_ordered d rb Hrb) as Hord.
    simpl in Hord.
    pose proof (mstride_bounds b d b_ordered) as [Hs1 _].
    cbn [enum]. rewrite (list_lookup_total_correct _ _ _ Hrb).
    assert (Hfg : forall dd,
      enum b b d (off + (dd - rb !!! 0%nat) * mstride b d)
      = (fun k => (off + 1) + (dd - rb !!! 0%nat) * mstride b d + k)
          <$> seqZ 0 (mstride b d)).
    { intros dd. rewrite IH by lia. apply list_fmap_ext. intros i k _. lia. }
    rewrite (list_bind_ext _ _ _ _ Hfg eq_refl).
    replace (rb !!! 1%nat - rb !!! 0%nat + 1)
      with (Z.of_nat (Z.to_nat (msize rb))) by (unfold msize; lia).
    rewrite progression_blocks by lia.
    rewrite (mstride_S _ _ _ Hrb). do 2 f_equal. unfold msize. lia.
Qed.

(** The numbers of a query within the extent ascend and stay within the
    block of numbers of the dimensions enumerated. *)
Lemma enum_ascending (q : list (list Z)) (nd : nat) (off : Z) :
  query_within b q -> (nd <= length b)%nat ->
  StronglySorted Z.lt (enum b q nd off) /\
  Forall (fun x => off + 1 <= x <= off + mstride b nd) (enum b q nd off).
Proof.
  intros Hq. revert off. induction nd as [|d IH]; intros off Hnd.
  - rewrite mstride_0. simpl. split; repeat constructor; lia.
  - destruct (lookup_lt_is_Some_2 b d) as [rb Hrb]; [lia|].
    destruct (Hq d rb Hrb) as (rq & Hrq & _ & Hlo & Hhi).
    pose proof (mstride_bounds b d b_ordered) as [Hs1 _].
    pose proof (mstride_S _ _ _ Hrb) as HS. unfold msize in HS.
    cbn [enum].
    rewrite (list_lookup_total_correct _ _ _ Hrq),
            (list_lookup_total_correct _ _ _ Hrb).
    assert (Hblocks : forall (n : nat) (first : Z),
      rb !!! 0%nat <= first -> first + Z.of_nat n - 1 <= rb !!! 1%nat ->
      StronglySorted Z.lt
        (seqZ first (Z.of_nat n)
           ≫= fun dd => enum b q d (off + (dd - rb !!! 0%nat) * mstride b d)) /\
      Forall (fun x => off + (first - rb !!! 0%nat) * mstride b d + 1 <= x
                       <= off + mstride b (S d))
        (seqZ first (Z.of_nat n)
           ≫= fun dd => enum b q d (off + (dd - rb !!! 0%nat) * mstride b d))).
    { induction n as [|n IHn]; intros first Hfirst Hlast.
      - rewrite seqZ_nil by lia. split; constructor.
      - rewrite seqZ_cons by lia. rewrite bind_cons.
        replace (Z.pred (Z.of_nat (S n))) with (Z.of_nat n) by lia.
        destruct (IH (off + (first - rb !!! 0%nat) * mstride b d)) as [Hs Hr];
          [lia|].
        destruct (IHn (Z.succ first)) as [Hs' Hr']; [lia|lia|].
        rewrite Forall_forall in Hr, Hr'.
        split.
        + apply StronglySorted_app_2; [|done|done].
          intros x1 x2 Hx1 Hx2.
          specialize (Hr _ Hx1). specialize (Hr' _ Hx2). simpl in Hr, Hr'. nia.
        + apply Forall_app. split; apply Forall_forall; intros x Hx.
          * specialize (Hr _ Hx). simpl in Hr. nia.
          * specialize (Hr' _ Hx). simpl in Hr'. nia. }
    destruct (decide (rq !!! 0%nat <= rq !!! 1%nat)) as [Hne|Hempty].
    + destruct (Hblocks (Z.to_nat (rq !!! 1%nat - rq !!! 0%nat + 1)) (rq !!! 0%nat))
        as [Hs Hr]; [lia|lia|].
      rewrite Z2Nat.id in Hs, Hr by lia. split; [done|].
      eapply Forall_impl; [exact Hr|]. intros x Hx. simpl in *. nia.
    + rewrite seqZ_nil by lia. split; constructor.
Qed.

(** The number of node numbers of a query. *)
Lemma enum_length (q : list (list Z)) (nd : nat) (off : Z) :
  (nd <= length q)%nat ->
  Z.of_nat (length (enum b q nd off)) = query_count q nd.
Proof.
  unfold query_count. revert off. induction nd as [|d IH]; intros off Hnd; [done|].
  destruct (lookup_lt_is_Some_2 q d) as [rq Hrq]; [lia|].
  cbn [enum]. rewrite (list_lookup_total_correct _ _ _ Hrq).
  rewrite (length_bind_const _ _ (Z.to_nat (mprod
             ((fun row : list Z => Z.max 0 (msize row)) <$> take d q)))).
  2:{ intros dd. rewrite <- (IH (off + (dd - (b !!! d) !!! 0%nat) * mstride b d))
        by lia.
      by rewrite Nat2Z.id. }
  rewrite length_seqZ, (take_S_r _ _ _ Hrq), fmap_app, mprod_app.
  assert (Hpos : 0 <= mprod ((fun row : list Z => Z.max 0 (msize row)) <$> take d q)).
  { rewrite <- (IH 0) by lia. lia. }
  cbn [fmap list_fmap]. rewrite mprod_cons. change (mprod []) with 1.
  rewrite Nat2Z.inj_mul.
  rewrite (Z2Nat.id (mprod _)) by lia.
  replace (Z.of_nat (Z.to_nat (rq !!! 1%nat - rq !!! 0%nat + 1)))
    with (Z.max 0 (msize rq)) by (unfold msize; lia).
  lia.
Qed.

(** A single cell has a single node number. *)
Lemma enum_cell (c : list Z) (nd : nat) (off : Z) :
  (nd <= length c)%nat ->
  enum b (cell_query c) nd off = [off + 1 + moffset b c nd].
Proof.
  revert off. induction nd as [|d IH]; intros off Hnd.
  - simpl. f_equal. lia.
  - cbn [enum moffset]. unfold cell_query at 1 2 3.
    rewrite !(list_lookup_total_fmap (fun x : Z => [x; x]) c d) by lia. simpl.
    replace (c !!! d - c !!! d + 1) with 1 by lia.
    rewrite seqZ_one, bind_singleton, IH by lia. f_equal. lia.
Qed.

End EnumFacts.

Lemma query_within_refl (b : list (list Z)) : rows_ok b -> query_within b b.
Proof.
  intros Hok d rb Hrb. exists rb. split; [done|].
  pose proof (proj1 (Forall_lookup _ _) Hok d rb Hrb) as Hlen. simpl in Hlen.
  repeat split; [done|lia|lia].
Qed.

(** X9.  For an extent of at least one dimension with [lo <= hi] in every
    dimension, whose bounds are values of [T] below its largest and whose
    number of nodes fits [T], [GetFlatIndices] of the extent itself returns
    the node numbers 1, 2, ..., [NNodes] in this order. *)
Theorem GetFlatIndices_of_whole_extent (Tmod : Z) (this : BSExtent)
    (indices : list Z) :
  bounds this <> [] -> rows_ok (bounds this) -> ordered_rows (bounds this) ->
  bounds_in_T Tmod (bounds this) -> mprod (msize <$> bounds this) < Tmod ->
  GetFlatIndices Tmod this this indices
    = Ret (seqZ 1 (mprod (msize <$> bounds this))) /\
  NNodes Tmod this = Ret (mprod (msize <$> bounds this)).
Proof.
  intros Hne Hok Hord HT Hfit. split.
  - rewrite GetFlatIndices_enum by (done || by apply query_within_refl).
    rewrite enum_whole by (done || unfold ND; lia).
    unfold ND. rewrite mstride_all. f_equal.
    rewrite <- (fmap_add_seqZ 1 0). apply list_fmap_ext. intros i k _. lia.
  - unfold NNodes. rewrite NNodes_fold by done.
    destruct (bounds this) as [|row b] eqn:Hb; [done|].
    rewrite sizes_T_exact by done. f_equal.
    pose proof (mprod_pos _ (msize_pos _ Hord)).
    rewrite Z.mul_1_l. apply wrapT_small. lia.
Qed.

Lemma GetFlatIndices_of_whole_extent_witness :
  GetFlatIndices T64 (extent_of T64 [[0; 2]; [0; 1]])
      (extent_of T64 [[0; 2]; [0; 1]]) []
    = Ret (seqZ 1 (mprod (msize <$> bounds (extent_of T64 [[0; 2]; [0; 1]])))) /\
  NNodes T64 (extent_of T64 [[0; 2]; [0; 1]])
    = Ret (mprod (msize <$> bounds (extent_of T64 [[0; 2]; [0; 1]]))).
Proof.
  apply GetFlatIndices_of_whole_extent.
  - discriminate.
  - repeat constructor; simpl; lia.
  - repeat constructor; simpl; lia.
  - repeat constructor; simpl; lia.
  - reflexivity.
Defined.

(** X10.  Under the same conditions on the extent, [GetFlatIndices] of a
    query that lies within the extent returns node numbers between 1 and the
    number of nodes of the extent, in strictly ascending order, one for every
    coordinate tuple of the query (none when a range of the query is
    empty). *)
Theorem GetFlatIndices_of_contained_query (Tmod : Z) (this query : BSExtent)
    (indices : list Z) :
  bounds this <> [] -> rows_ok (bounds this) -> ordered_rows (bounds this) ->
  bounds_in_T Tmod (bounds this) -> mprod (msize <$> bounds this) < Tmod ->
  query_within (bounds this) (bounds query) ->
  exists l,
    GetFlatIndices Tmod this query indices = Ret l /\
    StronglySorted Z.lt l /\
    Forall (fun x => 1 <= x <= mprod (msize <$> bounds this)) l /\
    Z.of_nat (length l) = query_count (bounds query) (ND this).
Proof.
  intros Hne Hok Hord HT Hfit Hq.
  rewrite GetFlatIndices_enum by done. eexists. split; [done|].
  destruct (enum_ascending (bounds this) Hord (bounds query) (ND this) 0 Hq)
    as [Hs Hr]; [unfold ND; lia|].
  split; [done|]. split.
  - unfold ND in Hr. rewrite mstride_all in Hr.
    eapply Forall_impl; [exact Hr|]. intros x Hx. simpl in Hx. lia.
  - apply enum_length. unfold ND.
    destruct (decide (length (bounds this) <= length (bounds query))%nat)
      as [Hle|Hgt]; [done|].
    destruct (lookup_lt_is_Some_2 (bounds this) (length (bounds query)))
      as [rb Hrb]; [lia|].
    destruct (Hq _ _ Hrb) as (rq & Hrq & _).
    apply lookup_lt_Some in Hrq. lia.
Qed.

Lemma GetFlatIndices_of_contained_query_witness :
  exists l,
    GetFlatIndices T64 (extent_of T64 [[0; 3]; [0; 2]])
      (extent_of T64 [[1; 2]; [1; 2]]) [] = Ret l /\
    StronglySorted Z.lt l /\
    Forall (fun x => 1 <= x
                     <= mprod (msize <$> bounds (extent_of T64 [[0; 3]; [0; 2]]))) l /\
    Z.of_nat (length l)
      = query_count (bounds (extent_of T64 [[1; 2]; [1; 2]]))
          (ND (extent_of T64 [[0; 3]; [0; 2]])).
Proof.
  apply GetFlatIndices_of_contained_query.
  - discriminate.
  - repeat constructor; simpl; lia.
  - repeat constructor; simpl; lia.
  - repeat constructor; simpl; lia.
  - reflexivity.
  - intros d rb Hrb.
    destruct d as [|[|d]]; simpl in Hrb; [| |discriminate];
      injection Hrb as <-; eexists; (split; [reflexivity|]); simpl; lia.
Defined.

(** X11.  Under the same conditions on the extent, the query that holds the
    single cell at a coordinate tuple inside the extent has exactly one flat
    index: one plus the sum over the dimensions of [(c_d - lo_d) * stride_d]. *)
Theorem GetFlatIndices_of_single_cell (Tmod : Z) (this query : BSExtent)
    (c indices : list Z) :
  bounds this <> [] -> rows_ok (bounds this) -> ordered_rows (bounds this) ->
  bounds_in_T Tmod (bounds this) -> mprod (msize <$> bounds this) < Tmod ->
  bounds query = cell_query c ->
  length c = ND this ->
  (forall d rb, bounds this !! d = Some rb ->
                rb !!! 0%nat <= c !!! d <= rb !!! 1%nat) ->
  GetFlatIndices Tmod this query indices
    = Ret [1 + moffset (bounds this) c (ND this)].
Proof.
  intros Hne Hok Hord HT Hfit Hquery Hlen Hc.
  rewrite GetFlatIndices_enum; try done.
  - rewrite Hquery, enum_cell by lia. do 2 f_equal.
  - rewrite Hquery. intros d rb Hrb.
    assert (Hd : (d < length c)%nat).
    { apply lookup_lt_Some in Hrb. unfold ND in Hlen. lia. }
    exists [c !!! d; c !!! d]. split.
    + unfold cell_query. rewrite list_lookup_fmap.
      by rewrite (list_lookup_lookup_total_lt c d Hd).
    + specialize (Hc d rb Hrb). simpl. lia.
Qed.

Lemma GetFlatIndices_of_single_cell_witness :
  GetFlatIndices T64 (extent_of T64 [[0; 3]; [0; 2]])
      (extent_of T64 [[2; 2]; [1; 1]]) []
    = Ret [1 + moffset (bounds (extent_of T64 [[0; 3]; [0; 2]])) [2; 1]
                 (ND (extent_of T64 [[0; 3]; [0; 2]]))].
Proof.
  apply GetFlatIndices_of_single_cell.
  - discriminate.
  - repeat constructor; simpl; lia.
  - repeat constructor; simpl; lia.
  - repeat constructor; simpl; lia.
  - reflexivity.
  - reflexivity.
  - reflexivity.
  - intros d rb Hrb.
    destruct d as [|[|d]]; simpl in Hrb; [| |discriminate];
      injection Hrb as <-; simpl; lia.
Defined.

(** ** The conversion to an unstructured mesh *)

Section ElementLoop.

Variable Tmod : Z.
Variables offset planeoffset : Z.
Variable indices : list Z.

(** The loop over the indices hands the sink one element for every index,
    in the order of the indices. *)
Lemma element_loop (count : nat) (conn : Connectivity) :
  (count <= length indices)%nat ->
  for_range (fun i c =>
        x0 ← vget indices i;
        let e0 := [] ++ [x0] in
        x1 ← vget indices i;
        let e1 := e0 ++ [wrapT Tmod (x1 + 1)] in
        x2 ← vget indices i;
        let e2 := e1 ++ [wrapT Tmod (wrapT Tmod (x2 + 1) + offset)] in
        x3 ← vget indices i;
        let e3 := e2 ++ [wrapT Tmod (x3 + offset)] in
        element ←
          (if bool_decide (0 < planeoffset) then
             x4 ← vget indices i;
             let e4 := e3 ++ [wrapT Tmod (x4 + planeoffset)] in
             x5 ← vget indices i;
             let e5 := e4 ++ [wrapT Tmod (wrapT Tmod (x5 + 1) + planeoffset)] in
             x6 ← vget indices i;
             let e6 :=
               e5 ++ [wrapT Tmod (wrapT Tmod (wrapT Tmod (x6 + planeoffset) + offset) + 1)] in
             x7 ← vget indices i;
             Ret (e6 ++ [wrapT Tmod (wrapT Tmod (x7 + planeoffset) + offset)])
           else Ret e3);
        Ret (c ++ [AddElement element]))
      count 0%nat conn
  = Ret (conn ++ (AddElement ∘ element_of Tmod offset planeoffset
                    <$> take count indices)).
Proof.
  intros Hcount.
  match goal with
  | |- for_range ?body _ _ _ = _ =>
      destruct (for_range_inv body
        (fun i c => c = conn ++ (AddElement ∘ element_of Tmod offset planeoffset
                                   <$> take i indices))
        count 0%nat conn) as (c & Hc & ->)
  end.
  - by rewrite take_0, app_nil_r.
  - intros i c Hi ->.
    destruct (lookup_lt_is_Some_2 indices i) as [x Hx]; [lia|].
    rewrite !(vget_lookup _ _ _ Hx). bind_red.
    exists ((conn ++ (AddElement ∘ element_of Tmod offset planeoffset
                        <$> take i indices))
            ++ [AddElement (element_of Tmod offset planeoffset x)]).
    split.
    + unfold element_of.
      destruct (bool_decide (0 < planeoffset)) eqn:Hp; bind_red; reflexivity.
    + by rewrite (take_S_r _ _ _ Hx), fmap_app, app_assoc.
  - by rewrite Hc.
Qed.

End ElementLoop.

Lemma element_of_length (Tmod offset planeoffset x : Z) :
  length (element_of Tmod offset planeoffset x)
  = if bool_decide (0 < planeoffset) then 8%nat else 4%nat.
Proof. unfold element_of. by destruct (bool_decide (0 < planeoffset)). Qed.

(** X12.  Whenever the conversion returns, the sink holds what it held
    before, followed by one [AddElement] call for each of a sequence of
    elements, followed by exactly one [Sync] call; the elements all have 4
    nodes or all have 8 nodes. *)
Theorem CreateUnstructuredMesh_sink_protocol (Tmod : Z) (this : BSExtent)
    (conn conn' : Connectivity) :
  CreateUnstructuredMesh Tmod this conn = Ret conn' ->
  exists elements : list (list Z),
    conn' = conn ++ (AddElement <$> elements) ++ [ConnSync] /\
    (Forall (fun e : list Z => length e = 4%nat) elements \/
     Forall (fun e : list Z => length e = 8%nat) elements).
Proof.
  unfold CreateUnstructuredMesh. case_bool_decide; [|done].
  destruct (for_range _ 3%nat 0%nat _) as [[ll mesh_nd]|]; bind_red; [|done].
  case_bool_decide; [|done].
  destruct (GetFlatIndices _ _ _ _) as [indices|]; bind_red; [|done].
  destruct (vget (_N this) 0) as [n0|]; bind_red; [|done].
  match goal with
  | |- context [mbind _ (if ?c then ?a else ?b)] =>
      destruct (if c then a else b) as [offset|]; bind_red; [|done]
  end.
  match goal with
  | |- context [mbind _ (if ?c then ?a else ?b)] =>
      destruct (if c then a else b) as [planeoffset|]; bind_red; [|done]
  end.
  assert (Hcount : (Z.to_nat (wrapT Tmod (Z.of_nat (length indices)))
                    <= length indices)%nat).
  { unfold wrapT. destruct (decide (Tmod = 0)) as [->|Hne].
    - rewrite Z.mod_0_r. lia.
    - destruct (decide (0 < Tmod)).
      + pose proof (Z.mod_le (Z.of_nat (length indices)) Tmod). lia.
      + pose proof (Z.mod_neg_bound (Z.of_nat (length indices)) Tmod). lia. }
  rewrite element_loop by done. bind_red. intros [= <-].
  exists (element_of Tmod offset planeoffset
            <$> take (Z.to_nat (wrapT Tmod (Z.of_nat (length indices)))) indices).
  split.
  - rewrite <- list_fmap_compose. by rewrite <- app_assoc.
  - pose proof (element_of_length Tmod offset planeoffset) as Hlen.
    destruct (bool_decide (0 < planeoffset)); [right|left];
      apply Forall_fmap, Forall_true; intros x; apply Hlen.
Qed.

Lemma CreateUnstructuredMesh_sink_protocol_witness :
  exists elements : list (list Z),
    [ConnSync; AddElement [1; 2; 5; 4]; AddElement [2; 3; 6; 5]; ConnSync]
      = [ConnSync] ++ (AddElement <$> elements) ++ [ConnSync] /\
    (Forall (fun e : list Z => length e = 4%nat) elements \/
     Forall (fun e : list Z => length e = 8%nat) elements).
Proof.
  apply (CreateUnstructuredMesh_sink_protocol T64
           (extent_of T64 [[0; 2]; [0; 1]; [0; 0]]) [ConnSync]).
  vm_compute. reflexivity.
Defined.

(** The numbers of a query do not exceed the number of its upper corner. *)
Lemma enum_upper (b q : list (list Z)) (nd : nat) (off : Z) :
  ordered_rows b -> (nd <= length q)%nat ->
  Forall (fun x => x <= off + 1 + moffset b ((fun row : list Z => row !!! 1%nat) <$> q) nd)
         (enum b q nd off).
Proof.
  intros Hord. revert off. induction nd as [|d IH]; intros off Hnd.
  - simpl. repeat constructor. lia.
  - cbn [enum moffset]. apply Forall_bind, Forall_seqZ. intros dd Hdd. simpl.
    eapply Forall_impl; [apply IH; lia|]. intros x Hx. simpl in Hx.
    pose proof (mstride_bounds b d Hord) as [Hs _].
    rewrite (list_lookup_total_fmap (fun row : list Z => row !!! 1%nat) q d) by lia.
    cbv beta. nia.
Qed.

Lemma sorted_length_le (l : list Z) (lo hi : Z) :
  StronglySorted Z.lt l -> Forall (fun x => lo <= x <= hi) l ->
  Z.of_nat (length l) <= Z.max 0 (hi - lo + 1).
Proof.
  intros Hs. revert lo. induction Hs as [|x l Hs IH Hx]; intros lo Hr; [simpl; lia|].
  apply Forall_cons in Hr as [Hx0 Hr].
  assert (Hr' : Forall (fun y => x + 1 <= y <= hi) l).
  { rewrite Forall_forall in Hr, Hx. apply Forall_forall. intros y Hy.
    specialize (Hr y Hy). specialize (Hx y Hy). simpl in *. lia. }
  specialize (IH (x + 1) Hr'). simpl length. lia.
Qed.

Section Conversion.

Variable Tmod : Z.
Variables l0 n0 l1 n1 l2 n2 : Z.
Variables t0 t1 t2 : list Z.
Variable this : BSExtent.

Hypothesis this_bounds :
  bounds this = [l0 :: (l0 + n0 - 1) :: t0; l1 :: (l1 + n1 - 1) :: t1;
                 l2 :: (l2 + n2 - 1) :: t2].
Hypothesis this_nd : _nd this = 3.
Hypothesis this_N : _N this = [n0; n1; n2].
Hypothesis size0 : 1 <= n0.
Hypothesis size1 : 1 <= n1.
Hypothesis size2 : 1 <= n2.
Hypothesis low0 : 0 <= l0.
Hypothesis low1 : 0 <= l1.
Hypothesis low2 : 0 <= l2.
Hypothesis high0 : l0 + n0 < Tmod.
Hypothesis high1 : l1 + n1 < Tmod.
Hypothesis high2 : l2 + n2 < Tmod.
Hypothesis nodes_fit_T : n0 * n1 * n2 < Tmod.
Hypothesis nodes_fit_size : n0 * n1 * n2 < 2 ^ 64.

Ltac sstep :=
  first
  [ progress bind_red
  | progress cbn [for_range fst snd length insert list_insert]
  | match goal with
    | |- context [vget ?v ?i] => rewrite (vget_lookup v i _ eq_refl)
    | |- context [vset ?v ?i ?x] => rewrite (vset_lt v i x) by (cbn [length]; lia)
    | |- context [wrapT Tmod ?z] => rewrite (wrapT_small Tmod z) by nia
    | |- context [wrap_size ?z] => rewrite (wrap_size_small z) by nia
    | |- context [bool_decide ?P] =>
        first [rewrite (bool_decide_true P) by lia
              |rewrite (bool_decide_false P) by lia]
    end ].

Ltac sstep0 :=
  first
  [ progress bind_red
  | match goal with
    | |- context [vget ?v ?i] => rewrite (vget_lookup v i _ eq_refl)
    | |- context [wrapT Tmod ?z] => rewrite (wrapT_small Tmod z) by nia
    | |- context [wrap_size ?z] => rewrite (wrap_size_small z) by nia
    end ].

Ltac size_step :=
  match goal with
  | |- context [bool_decide (1 < ?n)] =>
      first [rewrite (bool_decide_true (1 < n)) by lia
            |rewrite (bool_decide_false (1 < n)) by lia]
  | |- context [bool_decide (?a = 2)] =>
      first [rewrite (bool_decide_true (a = 2)) by lia
            |rewrite (bool_decide_false (a = 2)) by lia]
  end.

Ltac each_row tac :=
  repeat (apply List.Forall_cons; [tac|]); apply List.Forall_nil.

Ltac split_active :=
  destruct (decide (1 < n0)) as [A0|A0];
  destruct (decide (1 < n1)) as [A1|A1];
  destruct (decide (1 < n2)) as [A2|A2].

Lemma lowerleft_loop :
  for_range (fun i '(ll, mesh_nd) =>
        n ← vget (_N this) i;
        if bool_decide (1 < n) then
          row ← vget ll i;
          hi ← vget row 1;
          row' ← vset row 1 (wrapT Tmod (hi - 1));
          ll' ← vset ll i row';
          Ret (ll', mesh_nd)
        else Ret (ll, mesh_nd - 1))
      3%nat 0%nat (bounds this, 3)
  = Ret (lower_row <$> bounds this, active_count (bounds this)).
Proof.
  rewrite this_bounds, this_N. unfold lower_row, active_count, msize.
  cbn [fmap list_fmap foldr lookup_total list_lookup_total].
  split_active; repeat sstep; f_equal; f_equal; lia.
Qed.

Lemma this_facts :
  bounds this <> [] /\ rows_ok (bounds this) /\ ordered_rows (bounds this) /\
  bounds_in_T Tmod (bounds this) /\
  mprod (msize <$> bounds this) = n0 * n1 * n2 /\
  query_within (bounds this) (lower_row <$> bounds this).
Proof.
  rewrite this_bounds. split; [done|].
  split; [each_row ltac:(cbn [length]; lia)|].
  split; [each_row ltac:(simpl; lia)|].
  split; [each_row ltac:(simpl; lia)|].
  split; [unfold mprod, msize; simpl; lia|].
  intros d rb Hrb. unfold lower_row.
  destruct d as [|[|[|d]]]; simpl in Hrb; try discriminate;
    injection Hrb as <-; eexists; (split; [reflexivity|]);
    unfold msize; simpl; case_bool_decide; simpl; lia.
Qed.

Lemma conversion_indices :
  GetFlatIndices Tmod this (with_bounds this (lower_row <$> bounds this)) []
  = Ret (enum (bounds this) (lower_row <$> bounds this) 3 0).
Proof.
  destruct this_facts as (Hne & Hok & Hord & HT & Hprod & Hq).
  rewrite GetFlatIndices_enum; try done.
  - unfold ND. by rewrite this_bounds.
  - rewrite Hprod. lia.
Qed.


Lemma conversion_enum_facts :
  StronglySorted Z.lt (enum (bounds this) (lower_row <$> bounds this) 3 0) /\
  Forall (fun x => 1 <= x /\
            x <= 1 + moffset (bounds this)
                       ((fun row : list Z => row !!! 1%nat)
                          <$> (lower_row <$> bounds this)) 3)
         (enum (bounds this) (lower_row <$> bounds this) 3 0) /\
  Z.of_nat (length (enum (bounds this) (lower_row <$> bounds this) 3 0))
    <= n0 * n1 * n2.
Proof.
  destruct this_facts as (Hne & Hok & Hord & HT & Hprod & Hq).
  assert (Hlen : length (bounds this) = 3%nat) by (by rewrite this_bounds).
  destruct (enum_ascending (bounds this) Hord (lower_row <$> bounds this) 3 0 Hq)
    as [Hs Hr]; [lia|].
  pose proof (enum_upper (bounds this) (lower_row <$> bounds this) 3 0 Hord) as Hu.
  rewrite length_fmap, Hlen in Hu. specialize (Hu ltac:(lia)).
  assert (Hm : mstride (bounds this) 3 = n0 * n1 * n2)
    by (by rewrite <- Hprod, <- mstride_all, Hlen).
  rewrite Hm in Hr.
  split; [done|]. split.
  - rewrite Forall_forall in Hr, Hu. apply Forall_forall. intros x Hx.
    specialize (Hr x Hx). specialize (Hu x Hx). simpl in *. lia.
  - pose proof (sorted_length_le _ _ _ Hs Hr). nia.
Qed.

Lemma msize_row (l n : Z) (t : list Z) : msize (l :: (l + n - 1) :: t) = n.
Proof. unfold msize. simpl. lia. Qed.

Lemma lower_row_row (l n : Z) (t : list Z) :
  lower_row (l :: (l + n - 1) :: t)
  = l :: (l + n - 1 - (if bool_decide (1 < n) then 1 else 0)) :: t.
Proof.
  unfold lower_row. rewrite msize_row. case_bool_decide; simpl; f_equal; f_equal; lia.
Qed.

Lemma conversion_values :
  active_count (bounds this)
    = (if bool_decide (1 < n0) then 1 else 0)
      + (if bool_decide (1 < n1) then 1 else 0)
      + (if bool_decide (1 < n2) then 1 else 0) /\
  moffset (bounds this)
      ((fun row : list Z => row !!! 1%nat) <$> (lower_row <$> bounds this)) 3
    = (n0 - 1 - (if bool_decide (1 < n0) then 1 else 0))
      + (n1 - 1 - (if bool_decide (1 < n1) then 1 else 0)) * n0
      + (n2 - 1 - (if bool_decide (1 < n2) then 1 else 0)) * (n0 * n1) /\
  mesh_offset (bounds this) = (if bool_decide (1 < n0) then n0 else n1) /\
  msize (bounds this !!! 1%nat) = n1.
Proof.
  rewrite this_bounds. unfold active_count, mesh_offset, mstride, mprod.
  cbn [moffset foldr fmap list_fmap lookup_total list_lookup_total take].
  unfold mstride, mprod.
  cbn [foldr fmap list_fmap take].
  rewrite !lower_row_row, !msize_row.
  cbn [lookup_total list_lookup_total].
  repeat split; lia.
Qed.

Lemma conversion_closed_form (conn : Connectivity) :
  2 <= active_count (bounds this) ->
  CreateUnstructuredMesh Tmod this conn
  = Ret (conn ++ (AddElement ∘ mesh_cell (bounds this)
                    <$> enum (bounds this) (lower_row <$> bounds this) 3 0)
              ++ [ConnSync]).
Proof.
  intros Hact.
  destruct conversion_enum_facts as (_ & Hr & Hlen).
  destruct conversion_values as (HA & HM & HO & H1).
  unfold CreateUnstructuredMesh.
  rewrite this_nd, (bool_decide_true (3 = 3)) by done.
  rewrite lowerleft_loop. bind_red.
  rewrite (bool_decide_true (1 < active_count _)) by lia.
  rewrite conversion_indices. bind_red. rewrite this_N.
  unfold mesh_cell. rewrite HO, H1. rewrite HM in Hr.
  revert Hr Hlen. generalize (enum (bounds this) (lower_row <$> bounds this) 3 0).
  intros E Hr Hlen.
  rewrite HA in *. clear HA HM HO H1.
  split_active;
    rewrite ?(bool_decide_true (1 < n0)), ?(bool_decide_false (1 < n0)),
            ?(bool_decide_true (1 < n1)), ?(bool_decide_false (1 < n1)),
            ?(bool_decide_true (1 < n2)), ?(bool_decide_false (1 < n2)) in * by done;
    try lia.
  all: repeat (first [ sstep0 | size_step ]).
  all: rewrite Nat2Z.id, element_loop, firstn_all by done; bind_red.
  all: rewrite <- app_assoc; do 3 f_equal.
  all: apply list_fmap_ext; intros i x Hx;
       pose proof (proj1 (Forall_lookup _ _) Hr i x Hx) as Hxr; simpl in Hxr;
       unfold compose, element_of, hex_of, quad_of.
  all: repeat match goal with
       | |- context [bool_decide ?P] =>
           first [rewrite (bool_decide_true P) by nia
                 |rewrite (bool_decide_false P) by nia]
       end.
  all: repeat match goal with
       | |- context [wrapT Tmod ?z] => rewrite (wrapT_small Tmod z) by nia
       end.
  all: cbn [app]; repeat f_equal; lia.
Qed.
Lemma conversion_count :
  Z.of_nat (length (enum (bounds this) (lower_row <$> bounds this) 3 0))
  = cell_count (bounds this).
Proof.
  rewrite enum_length by (by rewrite length_fmap, this_bounds).
  unfold query_count, cell_count. rewrite this_bounds.
  cbn [fmap list_fmap take]. rewrite !msize_row.
  unfold mprod. cbn [foldr].
  assert (Hrow : forall l n t, 1 <= n ->
            Z.max 0 (msize (lower_row (l :: (l + n - 1) :: t))) = Z.max 1 (n - 1)).
  { intros l n t Hn. rewrite lower_row_row. unfold msize. simpl.
    case_bool_decide; lia. }
  by rewrite !Hrow by done.
Qed.

Lemma conversion_nodes_valid :
  2 <= active_count (bounds this) ->
  Forall (fun x => Forall (fun y => 1 <= y <= n0 * n1 * n2)
                          (mesh_cell (bounds this) x))
         (enum (bounds this) (lower_row <$> bounds this) 3 0).
Proof.
  intros Hact.
  destruct conversion_enum_facts as (_ & Hr & _).
  destruct conversion_values as (HA & HM & HO & H1).
  rewrite HM in Hr. apply Forall_forall. intros x Hx.
  rewrite Forall_forall in Hr. specialize (Hr x Hx). simpl in Hr.
  unfold mesh_cell, hex_of, quad_of. rewrite HO, H1, HA. rewrite HA in Hact.
  clear HA HM HO H1.
  split_active;
    rewrite ?(bool_decide_true (1 < n0)), ?(bool_decide_false (1 < n0)),
            ?(bool_decide_true (1 < n1)), ?(bool_decide_false (1 < n1)),
            ?(bool_decide_true (1 < n2)), ?(bool_decide_false (1 < n2)) in * by done;
    try lia.
  all: match goal with
       | |- context [bool_decide ?P] =>
           first [rewrite (bool_decide_true P) by lia
                 |rewrite (bool_decide_false P) by lia]
       end.
  all: cbn [app]; repeat (apply List.Forall_cons; [nia|]); apply List.Forall_nil.
Qed.

Lemma conversion_degenerate (conn : Connectivity) :
  active_count (bounds this) < 2 ->
  CreateUnstructuredMesh Tmod this conn = Stop AssertFailed.
Proof.
  intros Hact. unfold CreateUnstructuredMesh.
  rewrite this_nd, (bool_decide_true (3 = 3)) by done.
  rewrite lowerleft_loop. bind_red.
  by rewrite (bool_decide_false (1 < active_count _)) by lia.
Qed.

End Conversion.

(** The shape of a block that the conversion can number. *)
Lemma valid_block_shape (Tmod : Z) (this : BSExtent) :
  valid_block Tmod this ->
  exists l0 n0 l1 n1 l2 n2 t0 t1 t2,
    bounds this = [l0 :: (l0 + n0 - 1) :: t0; l1 :: (l1 + n1 - 1) :: t1;
                   l2 :: (l2 + n2 - 1) :: t2] /\
    _nd this = 3 /\ _N this = [n0; n1; n2] /\
    1 <= n0 /\ 1 <= n1 /\ 1 <= n2 /\
    0 <= l0 /\ 0 <= l1 /\ 0 <= l2 /\
    l0 + n0 < Tmod /\ l1 + n1 < Tmod /\ l2 + n2 < Tmod /\
    n0 * n1 * n2 < Tmod /\ n0 * n1 * n2 < 2 ^ 64 /\
    mprod (msize <$> bounds this) = n0 * n1 * n2.
Proof.
  intros ((Hnd & HN & _) & Hlen & Hok & Hord & HT & HfT & Hfs).
  destruct (bounds this) as [|r0 [|r1 [|r2 [|r3 b]]]] eqn:Hb; try done.
  apply Forall_cons in Hok as [Hr0 Hok]. apply Forall_cons in Hok as [Hr1 Hok].
  apply Forall_cons in Hok as [Hr2 _].
  apply Forall_cons in Hord as [Ho0 Hord]. apply Forall_cons in Hord as [Ho1 Hord].
  apply Forall_cons in Hord as [Ho2 _].
  apply Forall_cons in HT as [[HT0 HT0'] HT]. apply Forall_cons in HT as [[HT1 HT1'] HT].
  apply Forall_cons in HT as [[HT2 HT2'] _].
  destruct r0 as [|l0 [|h0 t0]]; simpl in Hr0; try lia.
  destruct r1 as [|l1 [|h1 t1]]; simpl in Hr1; try lia.
  destruct r2 as [|l2 [|h2 t2]]; simpl in Hr2; try lia.
  simpl in Ho0, Ho1, Ho2, HT0, HT0', HT1, HT1', HT2, HT2'.
  assert (Hprod : mprod (msize <$> [l0 :: h0 :: t0; l1 :: h1 :: t1; l2 :: h2 :: t2])
                  = (h0 - l0 + 1) * (h1 - l1 + 1) * (h2 - l2 + 1)).
  { unfold mprod, msize. simpl. lia. }
  rewrite Hprod in HfT, Hfs.
  exists l0, (h0 - l0 + 1), l1, (h1 - l1 + 1), l2, (h2 - l2 + 1), t0, t1, t2.
  split; [repeat f_equal; lia|]. split; [by rewrite Hnd|]. split.
  - assert (Hfactor : forall a b c : Z, 1 <= a -> 1 <= b -> 1 <= c ->
              a <= a * b * c /\ b <= a * b * c /\ c <= a * b * c).
    { intros a b c Ha Hb' Hc. assert (1 <= a * b) by nia.
      assert (1 <= b * c) by nia. assert (1 <= a * c) by nia.
      repeat split; nia. }
    destruct (Hfactor (h0 - l0 + 1) (h1 - l1 + 1) (h2 - l2 + 1))
      as (Hf0 & Hf1 & Hf2); [lia|lia|lia|].
    rewrite HN. unfold sizes, extent_size. simpl.
    rewrite !(wrapT_small Tmod (_ - _)) by lia.
    rewrite !(wrapT_small Tmod (_ - _ + 1)) by lia.
    by rewrite !wrap_size_small by lia.
  - repeat split; try lia; done.
Qed.

Ltac from_shape lem := eapply lem; eassumption.

(** X13.  The conversion of a valid block with at least two dimensions of
    more than one node enumerates the flat indices of its lower-left cells
    (the extent with the upper bound of every such dimension lowered by
    one), hands the sink, for each index [i] in this order, the
    quadrilateral [i, i+1, i+1+o, i+o] or, when all three dimensions have
    more than one node, the hexahedron that adds the same four nodes moved
    by the plane stride [o * size_1], and finalises the sink once.  The row
    stride [o] is the size of dimension 0, or of dimension 1 when dimension 0
    has one node.  The number of elements is the number of cells. *)
Theorem CreateUnstructuredMesh_elements (Tmod : Z) (this : BSExtent)
    (conn : Connectivity) :
  valid_block Tmod this -> 2 <= active_count (bounds this) ->
  exists indices,
    GetFlatIndices Tmod this (with_bounds this (lower_row <$> bounds this)) []
      = Ret indices /\
    CreateUnstructuredMesh Tmod this conn
      = Ret (conn ++ (AddElement ∘ mesh_cell (bounds this) <$> indices)
                  ++ [ConnSync]) /\
    Z.of_nat (length indices) = cell_count (bounds this).
Proof.
  intros Hvalid Hact.
  destruct (valid_block_shape _ _ Hvalid)
    as (l0 & n0 & l1 & n1 & l2 & n2 & t0 & t1 & t2 & Hb & Hnd & HN & H0 & H1 & H2
        & HL0 & HL1 & HL2 & HH0 & HH1 & HH2 & HfT & Hfs & _).
  exists (enum (bounds this) (lower_row <$> bounds this) 3 0).
  split; [from_shape conversion_indices|].
  split; [from_shape conversion_closed_form|from_shape conversion_count].
Qed.

(** X14.  In that conversion every node number of every element lies
    between 1 and the number of nodes of the block. *)
Theorem CreateUnstructuredMesh_nodes_in_range (Tmod : Z) (this : BSExtent)
    (conn : Connectivity) :
  valid_block Tmod this -> 2 <= active_count (bounds this) ->
  exists elements : list (list Z),
    CreateUnstructuredMesh Tmod this conn
      = Ret (conn ++ (AddElement <$> elements) ++ [ConnSync]) /\
    NNodes Tmod this = Ret (mprod (msize <$> bounds this)) /\
    Forall (Forall (fun y => 1 <= y <= mprod (msize <$> bounds this))) elements.
Proof.
  intros Hvalid Hact.
  destruct (valid_block_shape _ _ Hvalid)
    as (l0 & n0 & l1 & n1 & l2 & n2 & t0 & t1 & t2 & Hb & Hnd & HN & H0 & H1 & H2
        & HL0 & HL1 & HL2 & HH0 & HH1 & HH2 & HfT & Hfs & Hprod).
  destruct Hvalid as (_ & _ & Hok & Hord & _ & Hfit & _).
  exists (mesh_cell (bounds this)
            <$> enum (bounds this) (lower_row <$> bounds this) 3 0).
  split; [|split].
  - rewrite <- list_fmap_compose. from_shape conversion_closed_form.
  - by apply NNodes_is_product_of_sizes.
  - rewrite Hprod. apply Forall_fmap. from_shape conversion_nodes_valid.
Qed.

(** X15.  In that conversion the elements come in the dictionary order of
    their lower-left node: the first nodes of the elements ascend strictly,
    so no element is handed over twice. *)
Theorem CreateUnstructuredMesh_elements_ordered (Tmod : Z) (this : BSExtent)
    (conn : Connectivity) :
  valid_block Tmod this -> 2 <= active_count (bounds this) ->
  exists elements : list (list Z),
    CreateUnstructuredMesh Tmod this conn
      = Ret (conn ++ (AddElement <$> elements) ++ [ConnSync]) /\
    StronglySorted Z.lt ((fun e : list Z => e !!! 0%nat) <$> elements) /\
    NoDup elements.
Proof.
  intros Hvalid Hact.
  destruct (valid_block_shape _ _ Hvalid)
    as (l0 & n0 & l1 & n1 & l2 & n2 & t0 & t1 & t2 & Hb & Hnd & HN & H0 & H1 & H2
        & HL0 & HL1 & HL2 & HH0 & HH1 & HH2 & HfT & Hfs & Hprod).
  assert (Hsorted : StronglySorted Z.lt
            (enum (bounds this) (lower_row <$> bounds this) 3 0)).
  { eapply proj1. from_shape conversion_enum_facts. }
  assert (Hfirst : (fun e : list Z => e !!! 0%nat)
                     <$> (mesh_cell (bounds this)
                            <$> enum (bounds this) (lower_row <$> bounds this) 3 0)
                   = enum (bounds this) (lower_row <$> bounds this) 3 0).
  { rewrite <- list_fmap_compose. rewrite <- list_fmap_id.
    apply list_fmap_ext. intros i x _. unfold compose, mesh_cell.
    by case_bool_decide. }
  exists (mesh_cell (bounds this)
            <$> enum (bounds this) (lower_row <$> bounds this) 3 0).
  split; [|split].
  - rewrite <- list_fmap_compose. from_shape conversion_closed_form.
  - by rewrite Hfirst.
  - apply (NoDup_fmap_1 (fun e : list Z => e !!! 0%nat)). rewrite Hfirst.
    clear -Hsorted. induction Hsorted as [|x l _ IH Hx]; constructor; [|done].
    intros Hin. rewrite Forall_forall in Hx. specialize (Hx x Hin). lia.
Qed.

(** X16.  The conversion stops at its first assertion when the dimension
    count field is not 3, and at its second for a valid block with fewer
    than two dimensions of more than one node; the sink is not reached. *)
Theorem CreateUnstructuredMesh_assertions (Tmod : Z) (this : BSExtent)
    (conn : Connectivity) :
  (_nd this <> 3 -> CreateUnstructuredMesh Tmod this conn = Stop AssertFailed) /\
  (valid_block Tmod this -> active_count (bounds this) < 2 ->
   CreateUnstructuredMesh Tmod this conn = Stop AssertFailed).
Proof.
  split.
  - intros Hnd. unfold CreateUnstructuredMesh. by rewrite bool_decide_false.
  - intros Hvalid Hact.
    destruct (valid_block_shape _ _ Hvalid)
      as (l0 & n0 & l1 & n1 & l2 & n2 & t0 & t1 & t2 & Hb & Hnd & HN & H0 & H1 & H2
          & HL0 & HL1 & HL2 & HH0 & HH1 & HH2 & HfT & Hfs & Hprod).
    from_shape conversion_degenerate.
Qed.

Lemma valid_block_of_rows (rows : list (list Z)) :
  length rows = 3%nat -> rows_ok rows -> ordered_rows rows ->
  bounds_in_T T64 rows -> mprod (msize <$> rows) < 2 ^ 64 ->
  valid_block T64 (extent_of T64 rows).
Proof. intros Hlen Hok Hord HT Hfit. by repeat split. Qed.

Lemma CreateUnstructuredMesh_elements_witness :
  exists indices,
    GetFlatIndices T64 (extent_of T64 [[0; 2]; [0; 1]; [0; 1]])
      (with_bounds (extent_of T64 [[0; 2]; [0; 1]; [0; 1]])
         (lower_row <$> bounds (extent_of T64 [[0; 2]; [0; 1]; [0; 1]]))) []
      = Ret indices /\
    CreateUnstructuredMesh T64 (extent_of T64 [[0; 2]; [0; 1]; [0; 1]]) []
      = Ret ([] ++ (AddElement
                      ∘ mesh_cell (bounds (extent_of T64 [[0; 2]; [0; 1]; [0; 1]]))
                      <$> indices)
                ++ [ConnSync]) /\
    Z.of_nat (length indices)
      = cell_count (bounds (extent_of T64 [[0; 2]; [0; 1]; [0; 1]])).
Proof.
  apply CreateUnstructuredMesh_elements.
  - apply valid_block_of_rows.
    + reflexivity.
    + repeat (apply List.Forall_cons; [by vm_compute|]); apply List.Forall_nil.
    + repeat (apply List.Forall_cons; [by vm_compute|]); apply List.Forall_nil.
    + repeat (apply List.Forall_cons; [by vm_compute|]); apply List.Forall_nil.
    + reflexivity.
  - vm_compute. discriminate.
Defined.

Lemma CreateUnstructuredMesh_nodes_in_range_witness :
  exists elements : list (list Z),
    CreateUnstructuredMesh T64 (extent_of T64 [[0; 2]; [0; 1]; [4; 4]]) []
      = Ret ([] ++ (AddElement <$> elements) ++ [ConnSync]) /\
    NNodes T64 (extent_of T64 [[0; 2]; [0; 1]; [4; 4]])
      = Ret (mprod (msize <$> bounds (extent_of T64 [[0; 2]; [0; 1]; [4; 4]]))) /\
    Forall (Forall (fun y => 1 <= y
                      <= mprod (msize <$> bounds (extent_of T64 [[0; 2]; [0; 1]; [4; 4]]))))
           elements.
Proof.
  apply CreateUnstructuredMesh_nodes_in_range.
  - apply valid_block_of_rows.
    + reflexivity.
    + repeat (apply List.Forall_cons; [by vm_compute|]); apply List.Forall_nil.
    + repeat (apply List.Forall_cons; [by vm_compute|]); apply List.Forall_nil.
    + repeat (apply List.Forall_cons; [by vm_compute|]); apply List.Forall_nil.
    + reflexivity.
  - vm_compute. discriminate.
Defined.

Lemma CreateUnstructuredMesh_elements_ordered_witness :
  exists elements : list (list Z),
    CreateUnstructuredMesh T64 (extent_of T64 [[1; 1]; [0; 2]; [0; 2]]) []
      = Ret ([] ++ (AddElement <$> elements) ++ [ConnSync]) /\
    StronglySorted Z.lt ((fun e : list Z => e !!! 0%nat) <$> elements) /\
    NoDup elements.
Proof.
  apply CreateUnstructuredMesh_elements_ordered.
  - apply valid_block_of_rows.
    + reflexivity.
    + repeat (apply List.Forall_cons; [by vm_compute|]); apply List.Forall_nil.
    + repeat (apply List.Forall_cons; [by vm_compute|]); apply List.Forall_nil.
    + repeat (apply List.Forall_cons; [by vm_compute|]); apply List.Forall_nil.
    + reflexivity.
  - vm_compute. discriminate.
Defined.

Lemma CreateUnstructuredMesh_assertions_witness :
  CreateUnstructuredMesh T64 (extent_of T64 [[0; 2]; [0; 1]]) [] = Stop AssertFailed /\
  CreateUnstructuredMesh T64 (extent_of T64 [[0; 2]; [1; 1]; [4; 4]]) []
    = Stop AssertFailed.
Proof.
  split.
  - apply (proj1 (CreateUnstructuredMesh_assertions T64
                    (extent_of T64 [[0; 2]; [0; 1]]) [])).
    vm_compute. discriminate.
  - apply (proj2 (CreateUnstructuredMesh_assertions T64
                    (extent_of T64 [[0; 2]; [1; 1]; [4; 4]]) [])).
    + apply valid_block_of_rows.
      * reflexivity.
      * repeat (apply List.Forall_cons; [by vm_compute|]); apply List.Forall_nil.
      * repeat (apply List.Forall_cons; [by vm_compute|]); apply List.Forall_nil.
      * repeat (apply List.Forall_cons; [by vm_compute|]); apply List.Forall_nil.
      * reflexivity.
    + reflexivity.
Defined.

Ltac bind_red_in H := cbn [mbind outcome_bind mret outcome_ret] in H.

(** The loop over [dd] whose last value is the largest value of [T]: the
    test [dd <= end] holds for every value of [dd], so the loop yields no
    state. *)
Lemma for_T_last_is_largest {St : Type} (Tmod : Z)
    (body : Z -> St -> outcome St) (count : nat) (dd : Z) (s : St) :
  0 < Tmod -> dd <= Tmod - 1 ->
  ~ returns (for_T Tmod body (Tmod - 1) count dd s).
Proof.
  intros HT. revert dd s. induction count as [|count IH]; intros dd s Hdd [r Hr].
  - simpl in Hr. by rewrite bool_decide_true in Hr by done.
  - simpl in Hr. rewrite bool_decide_true in Hr by done.
    destruct (body dd s) as [s'|f]; [|done]. bind_red_in Hr.
    apply (IH (wrapT Tmod (dd + 1)) s'); [|by exists r].
    unfold wrapT. pose proof (Z.mod_pos_bound (dd + 1) Tmod HT). lia.
Qed.

Lemma for_T_last_is_largest_total {St : Type} (Tmod : Z)
    (body : Z -> St -> outcome St) (count : nat) (dd : Z) (s : St) :
  0 < Tmod -> dd <= Tmod - 1 ->
  (forall x t, returns (body x t)) ->
  for_T Tmod body (Tmod - 1) count dd s = Stop NoExit.
Proof.
  intros HT Hdd Hbody. revert dd s Hdd.
  induction count as [|count IH]; intros dd s Hdd.
  - simpl. by rewrite bool_decide_true by done.
  - simpl. rewrite bool_decide_true by done.
    destruct (Hbody dd s) as [s' ->]. bind_red. apply IH.
    unfold wrapT. pose proof (Z.mod_pos_bound (dd + 1) Tmod HT). lia.
Qed.

(** X17.  [FindSharedNodes] on a pool of no more entries than [T] has
    values appends to [neighbors] slot numbers in strictly ascending order,
    one for every region it reports; the entry in each of these slots has
    bounds other than those of the querying extent, and the region reported
    with the slot is the non-empty result of [Overlap] with that entry. *)
Theorem FindSharedNodes_reports_pool_entries (Tmod : Z) (this : BSExtent)
    (pool sh0 sh : list BSExtent) (nb0 nb : list Z) :
  Z.of_nat (length pool) <= Tmod ->
  FindSharedNodes Tmod this pool sh0 nb0 = Ret (sh, nb) ->
  exists idx,
    nb = nb0 ++ idx /\
    StronglySorted Z.lt idx /\
    Forall2 (fun (i : Z) (o : BSExtent) =>
               exists p, 0 <= i /\ pool !! Z.to_nat i = Some p /\
                         bounds p <> bounds this /\
                         Overlap this p BSExtent_default = Ret o /\
                         bounds o <> [])
            idx sh.
Proof.
  intros Hsize. unfold FindSharedNodes. rewrite FindSharedNodes_loop_app.
  destruct (FindSharedNodes_loop Tmod this pool 0 [] []) as [[s idx]|] eqn:Hrun;
    [|done].
  simpl. intros [= <- <-]. exists idx. split; [done|].
  assert (Hgen : forall (rest : list BSExtent) (i : nat) (nindex : Z)
                        (s : list BSExtent) (n : list Z),
    (rest <> [] -> nindex = Z.of_nat i) ->
    Z.of_nat (i + length rest) <= Tmod ->
    FindSharedNodes_loop Tmod this rest nindex [] [] = Ret (s, n) ->
    StronglySorted Z.lt n /\
    Forall (fun x => Z.of_nat i <= x) n /\
    Forall2 (fun (x : Z) (o : BSExtent) =>
               exists p, 0 <= x /\ rest !! (Z.to_nat x - i)%nat = Some p /\
                         bounds p <> bounds this /\
                         Overlap this p BSExtent_default = Ret o /\
                         bounds o <> [])
            n s).
  { clear. induction rest as [|epi rest IH]; intros i nindex s n Hidx Hfit.
    - simpl. intros [= <- <-]. repeat split; constructor.
    - rewrite (Hidx ltac:(done)). clear Hidx. simpl in Hfit.
      assert (Hnext : rest <> [] -> wrapT Tmod (Z.of_nat i + 1) = Z.of_nat (S i)).
      { intros Hne. destruct rest; [done|]. simpl in Hfit.
        rewrite wrapT_small by lia. lia. }
      assert (Hshift : forall (x : Z) (o : BSExtent),
        Z.of_nat (S i) <= x ->
        (exists p, 0 <= x /\ rest !! (Z.to_nat x - S i)%nat = Some p /\
                   bounds p <> bounds this /\
                   Overlap this p BSExtent_default = Ret o /\ bounds o <> []) ->
        exists p, 0 <= x /\ (epi :: rest) !! (Z.to_nat x - i)%nat = Some p /\
                  bounds p <> bounds this /\
                  Overlap this p BSExtent_default = Ret o /\ bounds o <> []).
      { intros x o Hx (p & H0 & Hp & Hrest). exists p. split; [done|].
        split; [|done].
        replace (Z.to_nat x - i)%nat with (S (Z.to_nat x - S i)) by lia. done. }
      assert (Htail : forall s' n',
        FindSharedNodes_loop Tmod this rest (wrapT Tmod (Z.of_nat i + 1)) [] []
          = Ret (s', n') ->
        StronglySorted Z.lt n' /\
        Forall (fun x => Z.of_nat (S i) <= x) n' /\
        Forall2 (fun (x : Z) (o : BSExtent) =>
                   exists p, 0 <= x /\ (epi :: rest) !! (Z.to_nat x - i)%nat = Some p /\
                             bounds p <> bounds this /\
                             Overlap this p BSExtent_default = Ret o /\
                             bounds o <> [])
                n' s').
      { intros s' n' Hrun.
        destruct (IH (S i) _ s' n' Hnext ltac:(lia) Hrun) as (Hs & Hlow & Hall).
        repeat split; [done|done|].
        clear Hs Hrun. revert s' Hall.
        induction Hlow as [|x n' Hx Hlow IHn]; intros s' Hall.
        - inversion Hall. constructor.
        - inversion Hall as [|? o ? s'' Hhead Hrest]; subst.
          constructor; [by apply Hshift|by apply IHn]. }
      simpl. case_bool_decide as Hne; bind_red.
      + destruct (Overlap this epi BSExtent_default) as [o|] eqn:Ho; bind_red;
          [|done].
        case_bool_decide as Hreg; bind_red.
        * rewrite FindSharedNodes_loop_app.
          destruct (FindSharedNodes_loop Tmod this rest _ [] [])
            as [[s' n']|] eqn:Hrun; [|done].
          simpl. intros [= <- <-].
          destruct (Htail s' n' eq_refl) as (Hs & Hlow & Hall).
          repeat split.
          -- constructor; [done|].
             eapply List.Forall_impl; [|exact Hlow]. simpl. lia.
          -- constructor; [lia|].
             eapply List.Forall_impl; [|exact Hlow]. simpl. lia.
          -- constructor; [|done].
             exists epi. split; [lia|].
             replace (Z.to_nat (Z.of_nat i) - i)%nat with 0%nat by lia. done.
        * intros Hrun. destruct (Htail s n Hrun) as (Hs & Hlow & Hall).
          repeat split; [done| |done].
          eapply List.Forall_impl; [|exact Hlow]. simpl. lia.
      + intros Hrun. destruct (Htail s n Hrun) as (Hs & Hlow & Hall).
        repeat split; [done| |done].
        eapply List.Forall_impl; [|exact Hlow]. simpl. lia. }
  destruct (Hgen pool 0%nat 0 s idx ltac:(done) ltac:(simpl; lia) Hrun)
    as (Hs & _ & Hall).
  split; [done|].
  eapply Forall2_impl; [exact Hall|].
  intros x o (p & Hx & Hp & Hrest). exists p. split; [done|].
  split; [|done]. by rewrite Nat.sub_0_r in Hp.
Qed.

Lemma FindSharedNodes_reports_pool_entries_witness :
  exists idx,
    [7; 1; 2] = [7] ++ idx /\
    StronglySorted Z.lt idx /\
    Forall2 (fun (i : Z) (o : BSExtent) =>
               exists p, 0 <= i /\
                 [extent_of T64 [[0; 5]]; extent_of T64 [[5; 9]];
                  extent_of T64 [[3; 8]]] !! Z.to_nat i = Some p /\
                 bounds p <> bounds (extent_of T64 [[0; 5]]) /\
                 Overlap (extent_of T64 [[0; 5]]) p BSExtent_default = Ret o /\
                 bounds o <> [])
            idx [mkBSExtent [[5; 5]] 0 [] []; mkBSExtent [[3; 5]] 0 [] []].
Proof.
  apply (FindSharedNodes_reports_pool_entries T64 (extent_of T64 [[0; 5]])
           [extent_of T64 [[0; 5]]; extent_of T64 [[5; 9]]; extent_of T64 [[3; 8]]]
           [] _ [7] [7; 1; 2]).
  - by vm_compute.
  - vm_compute. reflexivity.
Defined.

(** X18.  A query whose range in the last dimension of the extent is not
    empty and ends at the largest value of [T] keeps [GetFlatIndices] from
    coming back: the test [dd <= end] of the loop over that dimension holds
    for every value of [dd].  For an extent of one dimension the call runs
    through every value from the lower bound on and still does not leave
    the loop. *)
Theorem GetFlatIndices_range_ending_at_largest_value (Tmod : Z)
    (this query : BSExtent) (indices row : list Z) (first : Z) :
  0 < Tmod ->
  bounds query !! (ND this - 1)%nat = Some row ->
  row !! 0%nat = Some first -> row !! 1%nat = Some (Tmod - 1) ->
  first <= Tmod - 1 ->
  ~ returns (GetFlatIndices Tmod this query indices) /\
  (ND this = 1%nat -> rows_ok (bounds this) ->
   GetFlatIndices Tmod this query indices = Stop NoExit).
Proof.
  intros HT Hrow Hfirst Hlast Hle. split.
  - intros [r Hr]. unfold GetFlatIndices in Hr.
    destruct (for_range _ (ND this) 0%nat _) as [[N NP]|]; [|done].
    bind_red_in Hr.
    destruct (vset NP 0 0) as [NP0|]; [|done]. bind_red_in Hr.
    destruct (ND this) as [|d] eqn:Hnd; [done|].
    cbn [dir_loop] in Hr.
    destruct (vget NP0 d) as [np|]; [|done]. bind_red_in Hr.
    replace (S d - 1)%nat with d in Hrow by lia.
    rewrite (at2_lookup _ _ _ _ _ Hrow Hfirst) in Hr. bind_red_in Hr.
    rewrite (at2_lookup _ _ _ _ _ Hrow Hlast) in Hr. bind_red_in Hr.
    eapply for_T_last_is_largest; [exact HT|exact Hle|by exists r].
  - intros Hnd Hok. unfold GetFlatIndices. rewrite Hnd in *.
    unfold ND in Hnd.
    destruct (bounds this) as [|rb [|]] eqn:Hb; [done| |done].
    destruct (rows_ok_lookup [rb] 0 rb Hok eq_refl) as [Hb0 Hb1].
    simpl in Hrow.
    cbn [for_range replicate].
    rewrite (at2_lookup [rb] 0 1 rb _ eq_refl Hb1). bind_red.
    rewrite (at2_lookup [rb] 0 0 rb _ eq_refl Hb0). bind_red.
    rewrite (vset_lt [0] 0 1) by (simpl; lia). bind_red.
    rewrite (vset_lt [0] 0 (wrapT Tmod _)) by (simpl; lia). bind_red.
    cbn [list_insert insert]. rewrite (vset_lt [1] 0 0) by (simpl; lia). bind_red.
    cbn [list_insert insert dir_loop]. rewrite (vget_lookup [0] 0 0 eq_refl). bind_red.
    rewrite (at2_lookup _ _ _ _ _ Hrow Hfirst). bind_red.
    rewrite (at2_lookup _ _ _ _ _ Hrow Hlast). bind_red.
    apply for_T_last_is_largest_total; [done|done|].
    intros x t. rewrite Hb. rewrite (at2_lookup [rb] 0 0 rb _ eq_refl Hb0).
    bind_red. by eexists.
Qed.

Lemma GetFlatIndices_range_ending_at_largest_value_witness :
  ~ returns (GetFlatIndices T64 (extent_of T64 [[0; 2]])
               (extent_of T64 [[1; 18446744073709551615]]) []) /\
  GetFlatIndices T64 (extent_of T64 [[0; 2]])
    (extent_of T64 [[1; 18446744073709551615]]) [] = Stop NoExit.
Proof.
  destruct (GetFlatIndices_range_ending_at_largest_value T64
              (extent_of T64 [[0; 2]]) (extent_of T64 [[1; 18446744073709551615]])
              [] [1; 18446744073709551615] 1) as [Hno Hstop].
  - reflexivity.
  - reflexivity.
  - reflexivity.
  - reflexivity.
  - by vm_compute.
  - split; [exact Hno|]. apply Hstop; [reflexivity|].
    apply List.Forall_cons; [simpl; lia|apply List.Forall_nil].
Defined.
